(** * install-arch-linux.py: partitioning, mount lifecycle and fstab emission

    A shallow embedding of the installer script.  External commands are not
    executed: [_run] records the argument vector in a log and asks an
    environment what the process did (exit status, or an operator
    interrupt).  Python exceptions are an explicit result type, [try] /
    [finally] and the generator-based context manager [_do_mount] are
    written out. *)

From Stdlib Require Import ZArith Ascii.
From stdpp Require Import base option list sorting strings pretty gmap.

Local Open Scope string_scope.
Local Open Scope list_scope.

(** ** Python built-ins used by the script

    A string is the sequence of its character codes, eight bits each; for
    text beyond ASCII these are the bytes of its UTF-8 encoding, whose
    lexicographic order is the order of the code points. *)

Module Py.

(** [s.rstrip(c)] for a one-character [c]: drop every trailing [c]. *)
Fixpoint rstrip (c : ascii) (s : string) : string :=
  match s with
  | EmptyString => EmptyString
  | String a s' =>
      match rstrip c s' with
      | EmptyString => if Ascii.eqb a c then EmptyString else String a EmptyString
      | r => String a r
      end
  end.

(** [sep.join(l)]. *)
Fixpoint join (sep : string) (l : list string) : string :=
  match l with
  | [] => ""
  | [x] => x
  | x :: l' => x +:+ sep +:+ join sep l'
  end.

Fixpoint startswith (p s : string) : bool :=
  match p, s with
  | EmptyString, _ => true
  | String a p', String b s' => Ascii.eqb a b && startswith p' s'
  | String _ _, EmptyString => false
  end.

Fixpoint endswith_char (c : ascii) (s : string) : bool :=
  match s with
  | EmptyString => false
  | String a EmptyString => Ascii.eqb a c
  | String _ s' => endswith_char c s'
  end.

(** [enumerate(l, start)]. *)
Fixpoint enumerate {A} (start : nat) (l : list A) : list (nat * A) :=
  match l with
  | [] => []
  | x :: l' => (start, x) :: enumerate (S start) l'
  end.

(** [str(i)] and the [{i}] of an f-string, for integers. *)
Definition str_nat (i : nat) : string := pretty i.
Definition str_int (i : Z) : string := pretty i.
Definition str_optional_int (i : option Z) : string :=
  match i with
  | Some z => str_int z
  | None => "None"
  end.

(** Comparison of strings is lexicographic on character codes, and of
    tuples lexicographic on the components. *)
Definition str_le (a b : string) : Prop := String.leb a b = true.
Definition str_lt (a b : string) : Prop := String.ltb a b = true.

Definition tuple_le (x y : string * string) : Prop :=
  str_lt x.1 y.1 ∨ (x.1 = y.1 ∧ str_le x.2 y.2).

Global Instance str_le_dec a b : Decision (str_le a b) :=
  decide (String.leb a b = true).
Global Instance str_lt_dec a b : Decision (str_lt a b) :=
  decide (String.ltb a b = true).
Global Instance tuple_le_dec x y : Decision (tuple_le x y) :=
  decide (str_lt x.1 y.1 ∨ (x.1 = y.1 ∧ str_le x.2 y.2)).

(** [sorted(l)] on tuples of strings.  The order is total and
    antisymmetric, so the sorted list is unique (see [sorted_unique]). *)
Definition sorted (l : list (string * string)) : list (string * string) :=
  merge_sort tuple_le l.

(** [shlex.quote]: the characters that need no quoting are
    [[A-Za-z0-9_@%+=:,./-]]. *)
Definition is_safe_char (a : ascii) : bool :=
  let n := nat_of_ascii a in
  (((48 <=? n) && (n <=? 57)) || ((65 <=? n) && (n <=? 90)) ||
  ((97 <=? n) && (n <=? 122)) ||
  existsb (Nat.eqb n) [95; 64; 37; 43; 61; 58; 44; 46; 47; 45])%nat.

Fixpoint all_safe (s : string) : bool :=
  match s with
  | EmptyString => true
  | String a s' => is_safe_char a && all_safe s'
  end.

Definition squote : string := String (ascii_of_nat 39) EmptyString.
Definition dquote : string := String (ascii_of_nat 34) EmptyString.

(** [s.replace(single quote, quote-dquote-quote-dquote-quote)]. *)
Fixpoint escape_squotes (s : string) : string :=
  match s with
  | EmptyString => EmptyString
  | String a s' =>
      if Ascii.eqb a (ascii_of_nat 39)
      then squote +:+ dquote +:+ squote +:+ dquote +:+ squote +:+ escape_squotes s'
      else String a (escape_squotes s')
  end.

Definition shlex_quote (s : string) : string :=
  match s with
  | EmptyString => squote +:+ squote
  | _ => if all_safe s then s else squote +:+ escape_squotes s +:+ squote
  end.

(** [os.path.join(a, b)] (POSIX). *)
Definition os_path_join (a b : string) : string :=
  if startswith "/" b then b
  else if bool_decide (a = "") || endswith_char "/" a then a +:+ b
  else a +:+ "/" +:+ b.

End Py.

(** ** Exceptions, the command log and the command environment *)

Abbreviation command := (list string) (only parsing).

Inductive exception : Type :=
| CalledProcessError (returncode : Z) (cmd : command)
| KeyboardInterrupt
| ValueError (msg : string)
| KeyError (key : string)
| OtherException (name : string).

Inductive result (A : Type) : Type :=
| Ok (a : A)
| Raise (e : exception).
Arguments Ok {A} a.
Arguments Raise {A} e.

Global Instance result_ret : MRet result := λ A a, Ok a.
Global Instance result_bind : MBind result := λ A B k r,
  match r with
  | Ok a => k a
  | Raise e => Raise e
  end.

(** A loop that threads a value through its iterations and stops at the
    first exception. *)
Fixpoint fold_result {A S} (l : list A) (f : A → S → result S) (s : S) : result S :=
  match l with
  | [] => Ok s
  | x :: l' => s' ← f x s; fold_result l' f s'
  end.

(** What a child process did: it exited with a status, or the operator
    interrupted the wait. *)
Inductive completion : Type :=
| Exited (returncode : Z)
| Interrupted.

(** The environment decides the fate of a command from the commands issued
    so far and the command itself. *)
Definition environment : Type := list command → command → completion.

(** A computation reads and extends the log of issued commands and returns
    or raises. *)
Definition M (A : Type) : Type := list command → result A * list command.

Global Instance M_ret : MRet M := λ A a log, (Ok a, log).
Global Instance M_bind : MBind M := λ A B k m log,
  match m log with
  | (Ok a, log') => k a log'
  | (Raise e, log') => (Raise e, log')
  end.

(** [try: m finally: f].  The finaliser runs however [m] ends; an exception
    of the finaliser replaces the outcome of [m]. *)
Definition try_finally {A} (m : M A) (f : M unit) : M A :=
  λ log, match m log with
         | (r, log') =>
             match f log' with
             | (Ok _, log'') => (r, log'')
             | (Raise e, log'') => (Raise e, log'')
             end
         end.

(** [for x in l: body x]. *)
Fixpoint for_each {A} (l : list A) (body : A → M unit) : M unit :=
  match l with
  | [] => mret tt
  | x :: l' => body x;; for_each l' body
  end.

(** ** Data model *)

Inductive PartitionType : Type := LINUX_HOME | LINUX_X86_64_ROOT | EFI_SYSTEM.

Definition type_id (t : PartitionType) : string :=
  match t with
  | LINUX_HOME => "8302"
  | LINUX_X86_64_ROOT => "8304"
  | EFI_SYSTEM => "ef00"
  end.

Inductive FileSystemType : Type := BTRFS | EXT4 | FAT32.

Definition name (f : FileSystemType) : string :=
  match f with
  | BTRFS => "btrfs"
  | EXT4 => "ext4"
  | FAT32 => "vfat"
  end.

Definition formatter (f : FileSystemType) : list string :=
  match f with
  | BTRFS => ["mkfs.btrfs"; "-f"]
  | EXT4 => ["mkfs.ext4"]
  | FAT32 => ["mkfs.fat"; "-F32"]
  end.

(** [size] is in MiB; [None] stands for the rest of the disk. *)
Record Partition : Type := {
  size : option Z;
  partition_type : PartitionType;
  file_system : FileSystemType;
  mount_point : string
}.

Record MountSpec : Type := {
  disk : string;
  partition_id : nat;
  file_system_name : string
}.

(** The [partition] property of a [MountSpec]. *)
Definition partition (m : MountSpec) : string :=
  disk m +:+ Py.str_nat (partition_id m).

Record MountSpecs : Type := {
  root : MountSpec;
  boot : option MountSpec;
  home : option MountSpec
}.

(** [Mapping[str, Sequence[Partition]]], in the iteration order of
    [items()]. *)
Abbreviation partition_table := (list (string * list Partition)) (only parsing).

(** ** Running commands *)

Section Installer.

Variable env : environment.

(** [_run(args)]: the command is issued, then a non-zero exit status
    raises [CalledProcessError] ([check=True]) and an interrupt is raised
    again after the message is printed. *)
Definition _run (args : command) : M unit :=
  λ log,
    match env log args with
    | Exited 0 => (Ok tt, log ++ [args])
    | Exited returncode => (Raise (CalledProcessError returncode args), log ++ [args])
    | Interrupted => (Raise KeyboardInterrupt, log ++ [args])
    end.

Definition _append_line_to_file (content file : string) : M unit :=
  _run ["sh"; "-c";
        Py.join " " (map Py.shlex_quote ["printf"; "%s\n"; content]
                     ++ [">>"; Py.shlex_quote file])].

(** ** Partitioner *)

(** The truth value of [partition_item.size]: [None] and [0] are false. *)
Definition truthy (size : option Z) : bool :=
  match size with
  | None => false
  | Some z => negb (z =? 0)%Z
  end.

Definition _partition (partitions : partition_table) : M unit :=
  for_each partitions (λ '(disk, partition_items),
    _run ["sgdisk"; "-Z"; disk];;
    for_each (Py.enumerate 1 partition_items) (λ '(i, partition_item),
      (if truthy (size partition_item)
       then _run ["sgdisk";
                  "-n=" +:+ Py.str_nat i +:+ ":0:+" +:+
                    Py.str_optional_int (size partition_item) +:+ "M";
                  disk]
       else _run ["sgdisk"; "-n=" +:+ Py.str_nat i +:+ ":0:0"; disk]);;
      _run ["sgdisk";
            "-t=" +:+ Py.str_nat i +:+ ":" +:+ type_id (partition_type partition_item);
            disk];;
      _run (formatter (file_system partition_item) ++ [disk +:+ Py.str_nat i]))).

(** ** Mount orchestrator *)

(** [with _do_mount(mount_specs): body].  The iterator [mount_specs] is
    shared by the nested calls; each [next] takes the head of what is left.
    The generator yields inside [try ... finally], and the context manager
    re-raises into the generator whatever the body raised, so the [finally]
    clause runs on every way out of the nested scope. *)
Fixpoint _do_mount (mount_specs : list (string * string)) (body : M unit) : M unit :=
  match mount_specs with
  | [] => body
  | (target, source) :: mount_specs =>
      _run ["mkdir"; "-p"; target];;
      _run ["mount"; source; target];;
      try_finally (_do_mount mount_specs body) (_run ["umount"; target])
  end.

(** The generator expression of [_mount_filesystems], before sorting. *)
Definition mount_pairs (partitions : partition_table) (root : string)
  : list (string * string) :=
  flat_map (λ '(disk, partition_items),
    map (λ '(i, partition_item),
           (root +:+ Py.rstrip "/" (mount_point partition_item),
            disk +:+ Py.str_nat i))
        (Py.enumerate 1 partition_items))
    partitions.

(** [with _mount_filesystems(partitions, root): body]. *)
Definition _mount_filesystems (partitions : partition_table) (root : string)
    (body : M unit) : M unit :=
  let root := Py.rstrip "/" root in
  let mount_specs := Py.sorted (mount_pairs partitions root) in
  _do_mount mount_specs body.

(** ** Fstab emitter *)

(** One element of [lines]: partition, target, file system, options, dump
    and pass. *)
Definition fstab_line : Type := string * string * string * string * Z * Z.

Definition map_str (line : fstab_line) : list string :=
  let '(partition, mount_target, file_system_name, options, dump, pass) := line in
  [partition; mount_target; file_system_name; options; Py.str_int dump; Py.str_int pass].

(** The first loop of [_write_fstab]: a [MountSpec] is a non-empty tuple,
    so [if mount_spec] tests that it is not [None]. *)
Definition fstab_lines (mount_specs : MountSpecs) : list fstab_line :=
  foldl (λ lines '(mount_target, mount_spec),
           match mount_spec with
           | Some mount_spec =>
               if bool_decide (disk mount_spec ≠ disk (root mount_specs))
               then lines ++ [(partition mount_spec, mount_target,
                               file_system_name mount_spec, "defaults", 0%Z, 0%Z)]
               else lines
           | None => lines
           end)
        []
        [("/boot", boot mount_specs); ("/home", home mount_specs)].

Definition _write_fstab (mount_specs : MountSpecs) (root : string) : M unit :=
  let lines := fstab_lines mount_specs in
  for_each lines (λ line,
    _append_line_to_file (Py.join "  " (map_str line))
                         (Py.os_path_join root "etc/fstab")).

End Installer.

(** ** Mount spec resolver *)

Definition already_exists (mount_point : string) : exception :=
  ValueError ("Mount point “" +:+ mount_point +:+ "” already exists.").

(** The body of the inner loop of [_get_mount_specs]. *)
Definition record_mount_point (disk : string) (i : nat) (partition_item : Partition)
    (mount_points : gmap string MountSpec) : result (gmap string MountSpec) :=
  let mount_point := Py.rstrip "/" (mount_point partition_item) in
  if bool_decide (is_Some (mount_points !! mount_point))
  then Raise (already_exists mount_point)
  else Ok (<[mount_point :=
              {| disk := disk;
                 partition_id := i;
                 file_system_name := name (file_system partition_item) |}]>
           mount_points).

Definition _get_mount_specs (partitions : partition_table) : result MountSpecs :=
  mount_points ←
    fold_result partitions (λ '(disk, partition_items) mount_points,
      fold_result (Py.enumerate 1 partition_items) (λ '(i, partition_item),
        record_mount_point disk i partition_item) mount_points) ∅;
  match mount_points !! "" with
  | Some root =>
      Ok {| root := root;
            boot := mount_points !! "/boot";
            home := mount_points !! "/home" |}
  | None => Raise (KeyError "")
  end.

(** ** Vocabulary of the specification *)

(** Every partition of the table with its disk and its index, in the order
    of the nested loops. *)
Definition table_entries (partitions : partition_table)
  : list (string * nat * Partition) :=
  flat_map (λ '(disk, partition_items),
    map (λ '(i, partition_item), (disk, i, partition_item))
        (Py.enumerate 1 partition_items))
    partitions.

Definition normalized (e : string * nat * Partition) : string :=
  Py.rstrip "/" (mount_point e.2).

(** One iteration of the loops of [_get_mount_specs], on an entry. *)
Definition step (e : string * nat * Partition) (m : gmap string MountSpec)
  : result (gmap string MountSpec) :=
  record_mount_point e.1.1 e.1.2 e.2 m.

(** The [MountSpec] that the loops build for an entry. *)
Definition spec_of (e : string * nat * Partition) : MountSpec :=
  {| disk := e.1.1; partition_id := e.1.2;
     file_system_name := name (file_system e.2) |}.

(** [spec] is the partition at position [partition_id spec] (counted from
    one) of disk [disk spec], and that partition mounts at [key]. *)
Definition resolves_to (partitions : partition_table) (key : string)
    (spec : MountSpec) : Prop :=
  ∃ partition_items partition_item,
    (disk spec, partition_items) ∈ partitions ∧
    (1 ≤ partition_id spec)%nat ∧
    partition_items !! (partition_id spec - 1) = Some partition_item ∧
    Py.rstrip "/" (mount_point partition_item) = key ∧
    file_system_name spec = name (file_system partition_item).

Definition acquire_cmds (mount_specs : list (string * string)) : list command :=
  flat_map (λ '(target, source),
              [["mkdir"; "-p"; target]; ["mount"; source; target]])
           mount_specs.

Definition release_cmds (mount_specs : list (string * string)) : list command :=
  map (λ '(target, _), ["umount"; target]) (reverse mount_specs).

(** The persistent-mount record of [mount_spec] at [mount_target]. *)
Definition fstab_record (mount_spec : MountSpec) (mount_target : string) : string :=
  partition mount_spec +:+ "  " +:+ mount_target +:+ "  " +:+
  file_system_name mount_spec +:+ "  " +:+ "defaults" +:+ "  " +:+ "0" +:+ "  " +:+ "0".

Definition emit_cmd (root record : string) : command :=
  ["sh"; "-c";
   "printf '%s\n' " +:+ Py.shlex_quote record +:+ " >> " +:+
   Py.shlex_quote (Py.os_path_join root "etc/fstab")].

Definition fstab_records (mount_specs : MountSpecs) : list string :=
  (match boot mount_specs with
   | Some b => if bool_decide (disk b = disk (root mount_specs)) then []
               else [fstab_record b "/boot"]
   | None => []
   end) ++
  (match home mount_specs with
   | Some h => if bool_decide (disk h = disk (root mount_specs)) then []
               else [fstab_record h "/home"]
   | None => []
   end).

(** The commands of the partitioner for one partition, one disk and the
    whole table. *)
Definition create_cmd (disk : string) (i : nat) (size : option Z) : command :=
  match size with
  | Some z =>
      if bool_decide (z = 0%Z)
      then ["sgdisk"; "-n=" +:+ Py.str_nat i +:+ ":0:0"; disk]
      else ["sgdisk"; "-n=" +:+ Py.str_nat i +:+ ":0:+" +:+ Py.str_int z +:+ "M"; disk]
  | None => ["sgdisk"; "-n=" +:+ Py.str_nat i +:+ ":0:0"; disk]
  end.

Definition item_cmds (create : string → nat → option Z → command)
    (disk : string) (ip : nat * Partition) : list command :=
  [create disk ip.1 (size ip.2);
   ["sgdisk"; "-t=" +:+ Py.str_nat ip.1 +:+ ":" +:+ type_id (partition_type ip.2); disk];
   formatter (file_system ip.2) ++ [disk +:+ Py.str_nat ip.1]].

Definition disk_cmds (create : string → nat → option Z → command)
    (d : string * list Partition) : list command :=
  ["sgdisk"; "-Z"; d.1] :: flat_map (item_cmds create d.1) (Py.enumerate 1 d.2).

Definition partition_cmds (partitions : partition_table) : list command :=
  flat_map (disk_cmds create_cmd) partitions.

(** The creation command as the specification words it: sized whenever a
    size is given, the rest of the disk only when the size is absent. *)
Definition create_cmd_by_presence (disk : string) (i : nat) (size : option Z)
  : command :=
  match size with
  | Some z => ["sgdisk"; "-n=" +:+ Py.str_nat i +:+ ":0:+" +:+ Py.str_int z +:+ "M"; disk]
  | None => ["sgdisk"; "-n=" +:+ Py.str_nat i +:+ ":0:0"; disk]
  end.

Definition partition_cmds_by_presence (partitions : partition_table) : list command :=
  flat_map (disk_cmds create_cmd_by_presence) partitions.

Definition with_size (size' : option Z) (p : Partition) : Partition :=
  {| size := size';
     partition_type := partition_type p;
     file_system := file_system p;
     mount_point := mount_point p |}.

Section Outcomes.

Variable env : environment.

(** Each command of [cmds], issued in turn after [log], exits with 0. *)
Fixpoint all_succeed (log : list command) (cmds : list command) : Prop :=
  match cmds with
  | [] => True
  | c :: cmds => env log c = Exited 0 ∧ all_succeed (log ++ [c]) cmds
  end.

Definition fails (log : list command) (c : command) : Prop :=
  env log c ≠ Exited 0.

(** The [finally] clauses met on the way out, innermost first, applied to
    the outcome of what they protect. *)
Definition unwind (targets : list string) (st : result unit * list command)
  : result unit * list command :=
  foldl (λ st target, try_finally (λ _, st) (_run env ["umount"; target]) st.2)
        st targets.

End Outcomes.

(** ** Sample inputs *)

Definition sample_table : partition_table :=
  [("/dev/sda",
    [ {| size := Some 256%Z; partition_type := EFI_SYSTEM;
         file_system := FAT32; mount_point := "/boot" |};
      {| size := Some 10240%Z; partition_type := LINUX_X86_64_ROOT;
         file_system := EXT4; mount_point := "/" |};
      {| size := None; partition_type := LINUX_HOME;
         file_system := BTRFS; mount_point := "/home" |} ])].

Definition sample_specs : list (string * string) :=
  [("/mnt", "/dev/sda2"); ("/mnt/boot", "/dev/sda1"); ("/mnt/home", "/dev/sda3")].

Definition pacstrap : command := ["pacstrap"; "/mnt"; "linux"].

(** The sample table with a second disk whose partitions repeat [/home]
    and [/boot]. *)
Definition duplicate_table : partition_table :=
  sample_table ++
  [("/dev/sdb",
    [ {| size := None; partition_type := LINUX_HOME;
         file_system := EXT4; mount_point := "/home//" |};
      {| size := None; partition_type := LINUX_HOME;
         file_system := EXT4; mount_point := "/boot" |} ])].

(** One disk whose only partition has size 0. *)
Definition zero_size_table : partition_table :=
  [("/dev/sda",
    [ {| size := Some 0%Z; partition_type := LINUX_X86_64_ROOT;
         file_system := EXT4; mount_point := "/" |} ])].

(** Root on one disk, [/boot] on the same disk, [/home] on another. *)
Definition sample_mount_specs : MountSpecs :=
  {| root := {| disk := "/dev/sda"; partition_id := 2; file_system_name := "ext4" |};
     boot := Some {| disk := "/dev/sda"; partition_id := 1; file_system_name := "vfat" |};
     home := Some {| disk := "/dev/sdb"; partition_id := 12; file_system_name := "btrfs" |} |}.

(** Two disks: [/home] on the first, [/boot] and the root on the second. *)
Definition two_disk_table : partition_table :=
  [("/dev/sdb",
    [ {| size := None; partition_type := LINUX_HOME;
         file_system := BTRFS; mount_point := "/home" |} ]);
   ("/dev/sda",
    [ {| size := Some 256%Z; partition_type := EFI_SYSTEM;
         file_system := FAT32; mount_point := "/boot/" |};
      {| size := None; partition_type := LINUX_X86_64_ROOT;
         file_system := EXT4; mount_point := "/" |} ])].

(** One disk without a partition for the root. *)
Definition rootless_table : partition_table :=
  [("/dev/sda",
    [ {| size := None; partition_type := LINUX_HOME;
         file_system := EXT4; mount_point := "/home" |} ])].

(** Every command exits with 0. *)
Definition ok_env : environment := λ _ _, Exited 0.

(** Every command exits with 0, except [bad], which exits with 1. *)
Definition env_failing (bad : command) : environment :=
  λ _ c, if bool_decide (c = bad) then Exited 1 else Exited 0.

(** Every command exits with 0, except [bad], which is interrupted. *)
Definition env_interrupting (bad : command) : environment :=
  λ _ c, if bool_decide (c = bad) then Interrupted else Exited 0.

(** ** The rest of the installer *)

Module PyMore.

Definition newline : string := String (ascii_of_nat 10) EmptyString.

(** [os.path.dirname] (POSIX): the part up to the last separator, without
    its trailing separators unless it consists of separators only. *)
Fixpoint upto_last_sep (p : string) : string :=
  match p with
  | EmptyString => EmptyString
  | String a p' =>
      match upto_last_sep p' with
      | EmptyString => if Ascii.eqb a "/" then "/" else EmptyString
      | h => String a h
      end
  end.

Definition os_path_dirname (p : string) : string :=
  let head := upto_last_sep p in
  match Py.rstrip "/" head with
  | EmptyString => head
  | stripped => stripped
  end.

(** [re.escape] on text, as Python 3.7 and later define it: a backslash
    before each of the special characters
    [()[]{}?*+-|^$\.&~#], space, tab, newline, return, vertical tab and
    form feed. *)
Definition is_special_char (a : ascii) : bool :=
  existsb (Nat.eqb (nat_of_ascii a))
    [40; 41; 91; 93; 123; 125; 63; 42; 43; 45; 124; 94; 36; 92; 46; 38; 126;
     35; 32; 9; 10; 13; 11; 12].

Fixpoint re_escape (s : string) : string :=
  match s with
  | EmptyString => EmptyString
  | String a s' =>
      if is_special_char a
      then String (ascii_of_nat 92) (String a (re_escape s'))
      else String a (re_escape s')
  end.

End PyMore.

Inductive DesktopType : Type := KDE.

Module Desktop.

Definition packages (d : DesktopType) : list string :=
  match d with
  | KDE => ["alacritty"; "dolphin"; "plasma-desktop"; "sddm"; "xorg-server"]
  end.

Definition display_manager (d : DesktopType) : string :=
  match d with
  | KDE => "sddm"
  end.

End Desktop.

Record Configuration : Type := {
  partitions : partition_table;
  packages : list string;
  time_zone : string;
  locale : string;
  host_name : string;
  user_name : string;
  user_full_name : string;
  user_password : string;
  mirrors : list string;
  desktop : option DesktopType;
  drivers : list string
}.

Definition _get_configuration : Configuration :=
  {| partitions :=
       [("/dev/sda",
         [ {| partition_type := EFI_SYSTEM; size := Some 256%Z;
              file_system := FAT32; mount_point := "/boot" |};
           {| partition_type := LINUX_X86_64_ROOT; size := Some 10240%Z;
              file_system := EXT4; mount_point := "/" |};
           {| partition_type := LINUX_HOME; size := None;
              file_system := BTRFS; mount_point := "/home" |} ])];
     packages := ["linux"; "pacman"; "sed"; "sudo"];
     time_zone := "Asia/Shanghai";
     locale := "en_US.UTF-8";
     host_name := "EFanZh-PC-Arch";
     user_name := "efanzh";
     user_full_name := "EFanZh";
     user_password := "1234";
     mirrors := ["https://mirrors.tuna.tsinghua.edu.cn/archlinux";
                 "https://mirrors.ustc.edu.cn/archlinux"];
     desktop := Some KDE;
     drivers := ["xf86-video-fbdev"] |}.

(** The binary buffer of a stream: what [flush] has handed on, and what
    [write] has queued since. *)
Record buffer_state : Type := {
  flushed : string;
  queued : string
}.

Definition buffer_write (data : string) (b : buffer_state) : buffer_state :=
  {| flushed := flushed b; queued := queued b +:+ data |}.

Definition buffer_flush (b : buffer_state) : buffer_state :=
  {| flushed := flushed b +:+ queued b; queued := "" |}.

(** [_write_output(buffer, output)]; the bytes appended after an output
    that does not end in a newline are a slash and a newline. *)
Definition _write_output (buffer : buffer_state) (output : string) : buffer_state :=
  if bool_decide (output ≠ "")
  then
    let buffer := buffer_write output buffer in
    let buffer :=
      if negb (Py.endswith_char (ascii_of_nat 10) output)
      then buffer_write ("/" +:+ PyMore.newline) buffer
      else buffer in
    buffer_flush buffer
  else buffer.

(** A call of a function that issues no command. *)
Definition call {A} (r : result A) : M A := λ log, (r, log).

Section Installation.

Variable env : environment.

(** The outcome of [_get_default_network_interface()].  That function
    reads the output of [ip route] with [subprocess.check_output], not
    with [_run], and searches it with a regular expression; it returns the
    name of an interface or raises, and issues no logged command. *)
Variable default_network_interface : result string.

Definition _write_line_to_file (content file : string) : M unit :=
  _run env ["sh"; "-c";
            Py.join " " (map Py.shlex_quote ["printf"; "%s\n"; content]
                         ++ [">"; Py.shlex_quote file])].

Definition _configure_mirrors (mirrors : list string) : M unit :=
  _write_line_to_file
    (Py.join PyMore.newline
       (map (λ mirror, "Server = " +:+ mirror +:+ "/$repo/os/$arch") mirrors))
    "/etc/pacman.d/mirrorlist".

Definition _install_packages (packages : list string) (root : string) : M unit :=
  _run env (["pacstrap"; root] ++ packages).

Definition _link_service (source target root : string) : M unit :=
  let full_target_path :=
    Py.os_path_join (Py.os_path_join root "etc/systemd/system") target in
  _run env ["mkdir"; "-p"; PyMore.os_path_dirname full_target_path];;
  _run env ["ln"; "-s"; Py.os_path_join "/usr/lib/systemd/system" source;
            full_target_path].

Definition _configure_network (root : string) : M unit :=
  default_interface ← call default_network_interface;
  let network_configuration :=
    ["[Match]"; "Name=" +:+ default_interface; ""; "[Network]"; "DHCP=ipv4"] in
  let network_configuration_path :=
    Py.os_path_join root
      ("etc/systemd/network/20-" +:+ default_interface +:+ ".network") in
  for_each network_configuration (λ line,
    _append_line_to_file env line network_configuration_path);;
  _link_service "systemd-networkd.service"
    "dbus-org.freedesktop.network1.service" root;;
  _link_service "systemd-networkd.service"
    "multi-user.target.wants/systemd-networkd.service" root;;
  _link_service "systemd-networkd.socket"
    "sockets.target.wants/systemd-networkd.socket" root;;
  _link_service "systemd-networkd-wait-online.service"
    "network-online.target.wants/systemd-networkd-wait-online.service" root;;
  _run env ["ln"; "-fs"; "/run/systemd/resolve/stub-resolv.conf";
            Py.os_path_join root "etc/resolv.conf"];;
  _link_service "systemd-resolved.service"
    "dbus-org.freedesktop.resolve1.service" root;;
  _link_service "systemd-resolved.service"
    "multi-user.target.wants/systemd-resolved.service" root;;
  _link_service "systemd-timesyncd.service"
    "dbus-org.freedesktop.timesync1.service" root;;
  _link_service "systemd-timesyncd.service"
    "sysinit.target.wants/systemd-timesyncd.service" root.

Definition _configure_system (configuration : Configuration) (root : string)
  : M unit :=
  mount_specs ← call (_get_mount_specs (partitions configuration));
  _write_fstab env mount_specs root;;
  _run env ["ln"; "-s";
            Py.os_path_join "../usr/share/zoneinfo" (time_zone configuration);
            Py.os_path_join root "etc/localtime"];;
  _run env ["sed"; "-E"; "-i";
            "s/^#(" +:+ PyMore.re_escape (locale configuration) +:+ "\s.*)/\1/";
            Py.os_path_join root "etc/locale.gen"];;
  _run env ["arch-chroot"; root; "locale-gen"];;
  _write_line_to_file ("LANG=" +:+ locale configuration)
    (Py.os_path_join root "etc/locale.conf");;
  _write_line_to_file (host_name configuration)
    (Py.os_path_join root "etc/hostname");;
  _configure_network root;;
  _run env ["sed"; "-i"; "/^HOOKS=/ s/\budev\b/systemd/";
            Py.os_path_join root "etc/mkinitcpio.conf"];;
  _run env ["arch-chroot"; root; "mkinitcpio"; "-P"];;
  _run env ["arch-chroot"; root; "bootctl"; "install"];;
  let arch_linux_entry :=
    ["title    Arch Linux"; "linux    /vmlinuz-linux";
     "initrd   /initramfs-linux.img"; "options  rw"] in
  for_each arch_linux_entry (λ arch_linux_entry_line,
    _append_line_to_file env arch_linux_entry_line
      (Py.os_path_join root "boot/loader/entries/arch-linux.conf"));;
  _run env ["arch-chroot"; root; "useradd"; "-c"; user_full_name configuration;
            "-m"; user_name configuration];;
  _run env ["arch-chroot"; root; "usermod"; "-aG"; "wheel";
            user_name configuration];;
  _run env ["arch-chroot"; root; "sed"; "-E"; "-i";
            "s/^#\s*(%wheel.*NOPASSWD.*)/\1/"; "/etc/sudoers"];;
  let password_line :=
    user_name configuration +:+ ":" +:+ user_password configuration in
  _run env ["arch-chroot"; root; "sh"; "-c";
            "printf '%s' " +:+ Py.shlex_quote password_line +:+ " | chpasswd"];;
  match desktop configuration with
  | Some d =>
      _link_service (Desktop.display_manager d +:+ ".service")
        "display-manager.service" root
  | None => mret tt
  end.

Definition main (configuration : Configuration) : M unit :=
  let root := "/mnt" in
  _partition env (partitions configuration);;
  _mount_filesystems env (partitions configuration) root (
    _configure_mirrors (mirrors configuration);;
    let all_packages :=
      packages configuration ++ drivers configuration ++
      match desktop configuration with
      | Some d => Desktop.packages d
      | None => []
      end in
    _install_packages all_packages root;;
    _configure_system configuration root).

End Installation.

(** ** Vocabulary for the rest of the installer *)

(** A script: the commands [cmds] run one after the other. *)
Definition run_all (env : environment) (cmds : list command) : M unit :=
  for_each cmds (_run env).

(** [m] only ever adds commands to the log. *)
Definition extends_log {A} (m : M A) : Prop :=
  ∀ log, ∃ issued, (m log).2 = log ++ issued.

(** [b] is [a] followed by at least one more character. *)
Definition proper_prefix (a b : string) : Prop :=
  ∃ c, c ≠ "" ∧ b = a +:+ c.

(** No command of [log] is a [mount]. *)
Definition is_mount (c : command) : bool :=
  match c with
  | program :: _ => bool_decide (program = "mount")
  | [] => false
  end.

Definition no_mount_performed (log : list command) : Prop :=
  forallb (λ c, negb (is_mount c)) log = true.

(** The command of [_write_line_to_file]. *)
Definition write_line_cmd (content file : string) : command :=
  ["sh"; "-c";
   "printf '%s\n' " +:+ Py.shlex_quote content +:+ " > " +:+ Py.shlex_quote file].

(** What [_configure_system] runs after the fstab records and before it
    asks for the network interface. *)
Definition locale_and_host_cmds (configuration : Configuration) (root : string)
  : list command :=
  [ ["ln"; "-s";
     Py.os_path_join "../usr/share/zoneinfo" (time_zone configuration);
     Py.os_path_join root "etc/localtime"];
    ["sed"; "-E"; "-i";
     "s/^#(" +:+ PyMore.re_escape (locale configuration) +:+ "\s.*)/\1/";
     Py.os_path_join root "etc/locale.gen"];
    ["arch-chroot"; root; "locale-gen"];
    write_line_cmd ("LANG=" +:+ locale configuration)
      (Py.os_path_join root "etc/locale.conf");
    write_line_cmd (host_name configuration) (Py.os_path_join root "etc/hostname") ].

Definition mirrors_cmd (mirrors : list string) : command :=
  ["sh"; "-c";
   "printf '%s\n' " +:+
   Py.shlex_quote
     (Py.join PyMore.newline
        (map (λ mirror, "Server = " +:+ mirror +:+ "/$repo/os/$arch") mirrors)) +:+
   " > /etc/pacman.d/mirrorlist"].

Definition pacstrap_cmd (configuration : Configuration) : command :=
  ["pacstrap"; "/mnt"] ++ packages configuration ++ drivers configuration ++
  match desktop configuration with
  | Some d => Desktop.packages d
  | None => []
  end.

(** The default configuration with the table that repeats [/home] and
    [/boot]. *)
Definition duplicate_configuration : Configuration :=
  {| partitions := duplicate_table;
     packages := packages _get_configuration;
     time_zone := time_zone _get_configuration;
     locale := locale _get_configuration;
     host_name := host_name _get_configuration;
     user_name := user_name _get_configuration;
     user_full_name := user_full_name _get_configuration;
     user_password := user_password _get_configuration;
     mirrors := mirrors _get_configuration;
     desktop := desktop _get_configuration;
     drivers := drivers _get_configuration |}.

(** * Properties *)

(** Closes a goal on concrete inputs by evaluation. *)
Ltac by_evaluation :=
  vm_compute; repeat split; try reflexivity; try discriminate; auto.

(** Closes a decidable goal on concrete inputs by running its decision
    procedure. *)
Ltac by_decision := apply (bool_decide_unpack _); vm_compute; exact I.

(** ** The order used by [sorted] *)

Module PyFacts.
Import Py.

Lemma compare_refl (a : string) : String.compare a a = Eq.
Proof.
  pose proof (String.compare_antisym a a) as H.
  destruct (String.compare a a); simpl in H; congruence.
Qed.

Lemma compare_lt_trans (a b c : string) :
  String.compare a b = Lt → String.compare b c = Lt → String.compare a c = Lt.
Proof.
  revert b c. induction a as [|x a IH]; intros [|y b] [|z c]; simpl; try done.
  unfold Ascii.compare.
  destruct (N.compare_spec (N_of_ascii x) (N_of_ascii y)) as [Hxy|Hxy|Hxy];
    destruct (N.compare_spec (N_of_ascii y) (N_of_ascii z)) as [Hyz|Hyz|Hyz];
    try done;
    destruct (N.compare_spec (N_of_ascii x) (N_of_ascii z)) as [Hxz|Hxz|Hxz];
    try done; try lia.
  apply IH.
Qed.

Lemma str_le_cases (a b : string) : str_le a b ↔ str_lt a b ∨ a = b.
Proof.
  unfold str_le, str_lt, String.leb, String.ltb. split.
  - destruct (String.compare a b) eqn:E; try done.
    + right. by apply String.compare_eq_iff.
    + by left.
  - intros [H| ->].
    + by destruct (String.compare a b).
    + by rewrite compare_refl.
Qed.

Lemma str_lt_trans (a b c : string) : str_lt a b → str_lt b c → str_lt a c.
Proof.
  unfold str_lt, String.ltb. intros Hab Hbc.
  destruct (String.compare a b) eqn:E1; try done.
  destruct (String.compare b c) eqn:E2; try done.
  by rewrite (compare_lt_trans _ _ _ E1 E2).
Qed.

Lemma str_lt_irrefl (a : string) : ¬ str_lt a a.
Proof. unfold str_lt, String.ltb. by rewrite compare_refl. Qed.

Lemma str_lt_total (a b : string) : str_lt a b ∨ a = b ∨ str_lt b a.
Proof.
  unfold str_lt, String.ltb. rewrite (String.compare_antisym b a).
  destruct (String.compare a b) eqn:E; simpl; auto.
  right; left. by apply String.compare_eq_iff.
Qed.

Global Instance str_le_trans : Transitive str_le.
Proof.
  intros a b c. rewrite !str_le_cases.
  intros [H1| ->] [H2| ->]; eauto using str_lt_trans.
Qed.

Global Instance tuple_le_total : Total tuple_le.
Proof.
  intros [a1 a2] [b1 b2]. unfold tuple_le; simpl.
  destruct (str_lt_total a1 b1) as [H|[->|H]]; auto.
  destruct (String.leb_total a2 b2); unfold str_le; auto.
Qed.

Global Instance tuple_le_trans : Transitive tuple_le.
Proof.
  intros [a1 a2] [b1 b2] [c1 c2]. unfold tuple_le; simpl.
  intros [H1|[-> H1]] [H2|[-> H2]]; eauto using str_lt_trans.
  right. split; [done|]. by etrans.
Qed.

Global Instance tuple_le_antisym : AntiSymm (=) tuple_le.
Proof.
  intros [a1 a2] [b1 b2]. unfold tuple_le; simpl.
  intros [H1|[E1 H1]] [H2|[E2 H2]]; simplify_eq.
  - destruct (str_lt_irrefl a1). eauto using str_lt_trans.
  - exfalso. by eapply str_lt_irrefl.
  - exfalso. by eapply str_lt_irrefl.
  - f_equal. by apply String.leb_antisym.
Qed.

Lemma tuple_le_fst (x y : string * string) : tuple_le x y → str_le x.1 y.1.
Proof. rewrite str_le_cases. intros [H|[H _]]; auto. Qed.

(** The result of [sorted] is ascending and holds the same tuples. *)
Lemma sorted_ascending l : StronglySorted tuple_le (sorted l).
Proof. apply StronglySorted_merge_sort; apply _. Qed.

Lemma sorted_permutation l : sorted l ≡ₚ l.
Proof. apply merge_sort_Permutation. Qed.

(** No other list is an ascending arrangement of the same tuples, so the
    algorithm chosen for [sorted] does not matter. *)
Lemma sorted_unique l l' :
  StronglySorted tuple_le l' → l' ≡ₚ l → l' = sorted l.
Proof.
  intros Hs Hp. apply (StronglySorted_unique tuple_le); auto using sorted_ascending.
  by rewrite Hp, sorted_permutation.
Qed.

Lemma sorted_targets_ascending l : StronglySorted str_le (sorted l).*1.
Proof.
  induction (sorted_ascending l) as [|x l' Hl' IH Hx]; simpl; constructor; auto.
  apply Forall_fmap. eapply Forall_impl; [exact Hx|]. apply tuple_le_fst.
Qed.

Lemma enumerate_length {A} (start : nat) (l : list A) :
  length (enumerate start l) = length l.
Proof. revert start. induction l; intros; simpl; auto. Qed.

Lemma enumerate_app {A} (start : nat) (l1 l2 : list A) :
  enumerate start (l1 ++ l2) = enumerate start l1 ++ enumerate (start + length l1) l2.
Proof.
  revert start. induction l1 as [|x l1 IH]; intros start; simpl.
  - by rewrite Nat.add_0_r.
  - rewrite IH. by rewrite Nat.add_succ_r.
Qed.

Lemma elem_of_enumerate {A} (start i : nat) (x : A) (l : list A) :
  (i, x) ∈ enumerate start l ↔ (start ≤ i)%nat ∧ l !! (i - start)%nat = Some x.
Proof.
  revert start. induction l as [|y l IH]; intros start; simpl.
  - rewrite elem_of_nil. split; [done|]. intros [_ H]. by rewrite lookup_nil in H.
  - rewrite elem_of_cons, IH. split.
    + intros [Heq|[Hle Hl]].
      * simplify_eq. rewrite Nat.sub_diag. split; [lia|done].
      * split; [lia|]. replace (i - start)%nat with (S (i - S start)) by lia. done.
    + intros [Hle Hl]. destruct (decide (i = start)) as [->|Hne].
      * rewrite Nat.sub_diag in Hl. left. simpl in Hl. congruence.
      * right. split; [lia|].
        replace (i - start)%nat with (S (i - S start)) in Hl by lia. done.
Qed.

End PyFacts.

(** ** Running commands and unwinding [finally] clauses *)

Section Orchestrator.

Variable env : environment.

Lemma run_log (c : command) (log : list command) :
  (_run env c log).2 = log ++ [c].
Proof. unfold _run. by destruct (env log c) as [[| |]|]. Qed.

Lemma run_ok (c : command) (log : list command) :
  env log c = Exited 0 → _run env c log = (Ok tt, log ++ [c]).
Proof. unfold _run. by intros ->. Qed.

Lemma run_fails (c : command) (log : list command) :
  fails env log c → ∃ e, _run env c log = (Raise e, log ++ [c]).
Proof.
  unfold fails, _run. intros Hf.
  destruct (env log c) as [[| |]|]; try done; eauto.
Qed.

Lemma all_succeed_app (log : list command) (cs1 cs2 : list command) :
  all_succeed env log (cs1 ++ cs2) ↔
  all_succeed env log cs1 ∧ all_succeed env (log ++ cs1) cs2.
Proof.
  revert log. induction cs1 as [|c cs1 IH]; intros log; simpl.
  - rewrite app_nil_r. tauto.
  - rewrite IH, <- (assoc_L (++)). simpl. tauto.
Qed.

Lemma unwind_snoc (targets : list string) (target : string) st :
  unwind env (targets ++ [target]) st =
  try_finally (λ _, unwind env targets st) (_run env ["umount"; target])
              (unwind env targets st).2.
Proof. unfold unwind. by rewrite foldl_app. Qed.

Lemma unwind_app (targets1 targets2 : list string) st :
  unwind env (targets1 ++ targets2) st = unwind env targets2 (unwind env targets1 st).
Proof. unfold unwind. by rewrite foldl_app. Qed.

Lemma unwind_cons (targets : list string) (target : string) st :
  unwind env (target :: targets) st =
  unwind env targets (try_finally (λ _, st) (_run env ["umount"; target]) st.2).
Proof. done. Qed.

(** Every [finally] clause issues its command, whatever the earlier ones did. *)
Lemma unwind_log (targets : list string) st :
  (unwind env targets st).2 = st.2 ++ map (λ target, ["umount"; target]) targets.
Proof.
  revert st. induction targets as [|t targets IH]; intros [r log].
  - simpl. by rewrite app_nil_r.
  - rewrite unwind_cons, IH. simpl.
    rewrite (cons_middle _ log), (assoc_L (++)). f_equal.
    unfold try_finally. pose proof (run_log ["umount"; t] log) as H.
    by destruct (_run env ["umount"; t] log) as [[|] ?]; simpl in *.
Qed.

(** An exception is never lost while unwinding: it may only be replaced by
    the exception of a finaliser. *)
Lemma unwind_raise (targets : list string) e log :
  ∃ e', (unwind env targets (Raise e, log)).1 = Raise e'.
Proof.
  revert e log. induction targets as [|t targets IH]; intros e log.
  - by exists e.
  - rewrite unwind_cons. unfold try_finally. simpl.
    destruct (_run env ["umount"; t] log) as [[|e1] ?]; apply IH.
Qed.

(** When every [umount] succeeds, the outcome of the protected block is
    the outcome of the scope. *)
Lemma unwind_ok (targets : list string) r log :
  all_succeed env log (map (λ target, ["umount"; target]) targets) →
  (unwind env targets (r, log)).1 = r.
Proof.
  revert r log. induction targets as [|t targets IH]; intros r log Hall; [done|].
  destruct Hall as [H1 H2]. rewrite unwind_cons. unfold try_finally. simpl.
  rewrite run_ok by done. by apply IH.
Qed.

(** A failing [umount] makes the scope raise; when the [umount]s after it
    succeed, the scope raises the exception of the failing one. *)
Lemma unwind_failure (before after : list string) (target : string) r log :
  let log_before := log ++ map (λ target, ["umount"; target]) before in
  fails env log_before ["umount"; target] →
  ∃ e0 e,
    _run env ["umount"; target] log_before =
      (Raise e0, log_before ++ [["umount"; target]]) ∧
    (unwind env (before ++ target :: after) (r, log)).1 = Raise e ∧
    (all_succeed env (log_before ++ [["umount"; target]])
       (map (λ target, ["umount"; target]) after) → e = e0).
Proof.
  intros log_before Hf. destruct (run_fails _ _ Hf) as [e0 He0].
  rewrite unwind_app, unwind_cons.
  pose proof (unwind_log before (r, log)) as Hlog.
  destruct (unwind env before (r, log)) as [r1 log1]. simpl in Hlog.
  fold log_before in Hlog. subst log1.
  unfold try_finally. cbn [fst snd]. rewrite He0.
  destruct (unwind_raise after e0 (log_before ++ [["umount"; target]])) as [e He].
  exists e0, e. repeat split; [done|].
  intros Hok. rewrite (unwind_ok _ _ _ Hok) in He. congruence.
Qed.

(** Nested scopes: mounting [pre ++ post] around [body] is mounting [pre]
    around the scope that mounts [post] around [body]. *)
Lemma do_mount_app (pre post : list (string * string)) (body : M unit) :
  _do_mount env (pre ++ post) body = _do_mount env pre (_do_mount env post body).
Proof.
  induction pre as [|[target source] pre IH]; simpl; [done|]. by rewrite IH.
Qed.

(** Once every [mkdir] and [mount] has succeeded, the scope is its body
    followed by the [umount]s, innermost first. *)
Lemma do_mount_acquired (mount_specs : list (string * string)) (body : M unit) log :
  all_succeed env log (acquire_cmds mount_specs) →
  _do_mount env mount_specs body log =
  unwind env (reverse mount_specs.*1) (body (log ++ acquire_cmds mount_specs)).
Proof.
  revert log. induction mount_specs as [|[target source] specs IH]; intros log.
  - intros _. simpl. by rewrite app_nil_r.
  - simpl. intros (Hmk & Hmnt & Hrest).
    unfold mbind, M_bind. rewrite (run_ok _ _ Hmk), (run_ok _ _ Hmnt).
    rewrite reverse_cons, unwind_snoc. unfold try_finally at 1.
    rewrite (IH _ Hrest). rewrite <- !(assoc_L (++)). simpl.
    by destruct (unwind env _ _) as [r l].
Qed.

Lemma release_cmds_targets (mount_specs : list (string * string)) :
  release_cmds mount_specs =
  map (λ target, ["umount"; target]) (reverse mount_specs.*1).
Proof.
  unfold release_cmds. rewrite <- fmap_reverse, <- list_fmap_compose.
  apply list_fmap_ext. by intros ? [??].
Qed.

Lemma release_cmds_length (mount_specs : list (string * string)) :
  length (release_cmds mount_specs) = length mount_specs.
Proof. unfold release_cmds. by rewrite length_map, length_reverse. Qed.

Lemma release_cmds_app (outer inner : list (string * string)) :
  release_cmds (outer ++ inner) = release_cmds inner ++ release_cmds outer.
Proof. unfold release_cmds. by rewrite reverse_app, map_app. Qed.

Lemma release_cmds_cons (target source : string) (inner : list (string * string)) :
  release_cmds ((target, source) :: inner) = release_cmds inner ++ [["umount"; target]].
Proof. unfold release_cmds. by rewrite reverse_cons, map_app. Qed.

(** The scope in full, once acquisition has succeeded: what it returns is
    the outcome of the body after unwinding, and its log is the log of the
    body followed by every [umount], deepest target first. *)
Lemma do_mount_outcome (mount_specs : list (string * string)) (body : M unit) log :
  all_succeed env log (acquire_cmds mount_specs) →
  _do_mount env mount_specs body log =
  ((unwind env (reverse mount_specs.*1) (body (log ++ acquire_cmds mount_specs))).1,
   (body (log ++ acquire_cmds mount_specs)).2 ++ release_cmds mount_specs).
Proof.
  intros Hacq. rewrite (do_mount_acquired _ _ _ Hacq), release_cmds_targets.
  rewrite <- unwind_log. by destruct (unwind env _ _).
Qed.

Lemma acquire_cmds_app (pre post : list (string * string)) :
  acquire_cmds (pre ++ post) = acquire_cmds pre ++ acquire_cmds post.
Proof. apply flat_map_app. Qed.

(** C2: when the [mkdir] or the [mount] of a pair fails after the pairs
    [pre] before it were mounted, the body never runs, the scope issues one
    [umount] for each pair of [pre], last mounted first, and nothing else,
    and then raises; when those [umount]s succeed, what it raises is the
    exception of the failed command. *)
Theorem do_mount_acquisition_failure
    (pre post : list (string * string)) (target source : string)
    (body : M unit) (log : list command) :
  let mkdir := ["mkdir"; "-p"; target] in
  let mount := ["mount"; source; target] in
  let log_pre := log ++ acquire_cmds pre in
  all_succeed env log (acquire_cmds pre) →
  fails env log_pre mkdir ∨
    (env log_pre mkdir = Exited 0 ∧ fails env (log_pre ++ [mkdir]) mount) →
  ∃ (e0 e : exception) (attempted : list command),
    (attempted = [mkdir] ∨ attempted = [mkdir; mount]) ∧
    (_run env mkdir;; _run env mount) log_pre = (Raise e0, log_pre ++ attempted) ∧
    _do_mount env (pre ++ (target, source) :: post) body log =
      (Raise e, log_pre ++ attempted ++ release_cmds pre) ∧
    length (release_cmds pre) = length pre ∧
    (all_succeed env (log_pre ++ attempted) (release_cmds pre) → e = e0).
Proof.
  intros mkdir mount log_pre Hpre Hfail.
  assert (∃ e0 attempted,
    (attempted = [mkdir] ∨ attempted = [mkdir; mount]) ∧
    (_run env mkdir;; _run env mount) log_pre = (Raise e0, log_pre ++ attempted) ∧
    _do_mount env ((target, source) :: post) body log_pre =
      (Raise e0, log_pre ++ attempted)) as (e0 & attempted & Hatt & Hone & Hinner).
  { simpl. fold mkdir mount. unfold mbind, M_bind.
    destruct Hfail as [Hmk|[Hmk Hmnt]].
    - destruct (run_fails _ _ Hmk) as [e0 He0]. exists e0, [mkdir].
      rewrite He0. auto.
    - rewrite (run_ok _ _ Hmk).
      destruct (run_fails _ _ Hmnt) as [e0 He0]. exists e0, [mkdir; mount].
      rewrite He0, <- (assoc_L (++)). auto. }
  rewrite do_mount_app, (do_mount_outcome _ _ _ Hpre). fold log_pre.
  rewrite Hinner. simpl.
  destruct (unwind_raise (reverse pre.*1) e0 (log_pre ++ attempted)) as [e He].
  exists e0, e, attempted. rewrite He, <- (assoc_L (++)).
  repeat split; auto using release_cmds_length.
  intros Hrel. rewrite release_cmds_targets in Hrel.
  rewrite (unwind_ok _ _ _ Hrel) in He. congruence.
Qed.

(** C3: when the body raises after every pair was mounted, the scope
    issues the [umount] of every pair, deepest target first, after the
    commands of the body, and then raises; when the [umount]s succeed, what
    it raises is the exception of the body. *)
Theorem do_mount_body_error
    (mount_specs : list (string * string)) (body : M unit)
    (log log_body : list command) (e : exception) :
  all_succeed env log (acquire_cmds mount_specs) →
  body (log ++ acquire_cmds mount_specs) = (Raise e, log_body) →
  ∃ e' : exception,
    _do_mount env mount_specs body log =
      (Raise e', log_body ++ release_cmds mount_specs) ∧
    length (release_cmds mount_specs) = length mount_specs ∧
    (all_succeed env log_body (release_cmds mount_specs) → e' = e).
Proof.
  intros Hacq Hbody. rewrite (do_mount_outcome _ _ _ Hacq), Hbody. simpl.
  destruct (unwind_raise (reverse mount_specs.*1) e log_body) as [e' He'].
  exists e'. rewrite He'. repeat split; auto using release_cmds_length.
  intros Hrel. rewrite release_cmds_targets in Hrel.
  rewrite (unwind_ok _ _ _ Hrel) in He'. congruence.
Qed.

(** C4: when the [umount] of a mounted pair fails during teardown, the
    [umount] of every pair mounted before it (the shallower ones) is still
    issued, in reverse order of mounting, and only then does the scope
    raise; when those [umount]s succeed, what it raises is the exception of
    the failed [umount]. *)
Theorem do_mount_teardown_failure
    (outer inner : list (string * string)) (target source : string)
    (body : M unit) (log : list command) :
  let mount_specs := outer ++ (target, source) :: inner in
  let log_body := (body (log ++ acquire_cmds mount_specs)).2 in
  let log_inner := log_body ++ release_cmds inner in
  all_succeed env log (acquire_cmds mount_specs) →
  fails env log_inner ["umount"; target] →
  ∃ e0 e : exception,
    _run env ["umount"; target] log_inner =
      (Raise e0, log_inner ++ [["umount"; target]]) ∧
    _do_mount env mount_specs body log =
      (Raise e, log_inner ++ [["umount"; target]] ++ release_cmds outer) ∧
    length (release_cmds outer) = length outer ∧
    (all_succeed env (log_inner ++ [["umount"; target]]) (release_cmds outer) →
     e = e0).
Proof.
  intros mount_specs log_body log_inner Hacq Hfail.
  rewrite (do_mount_outcome _ _ _ Hacq). fold log_body.
  replace (release_cmds mount_specs)
    with (release_cmds inner ++ [["umount"; target]] ++ release_cmds outer)
    by (unfold mount_specs;
        by rewrite release_cmds_app, release_cmds_cons, <- (assoc_L (++))).
  rewrite (assoc_L (++) log_body). fold log_inner.
  assert (reverse mount_specs.*1 = reverse inner.*1 ++ target :: reverse outer.*1) as ->.
  { unfold mount_specs. rewrite fmap_app, reverse_app. simpl.
    by rewrite reverse_cons, <- (assoc_L (++)). }
  destruct (body (log ++ acquire_cmds mount_specs)) as [r l] eqn:Hb.
  subst log_inner log_body. cbn [snd] in *.
  rewrite !release_cmds_targets in *.
  destruct (unwind_failure _ (reverse outer.*1) _ r _ Hfail) as (e0 & e & H0 & He & Hid).
  exists e0, e. rewrite He, length_map, length_reverse, length_fmap. auto.
Qed.

(** C1: [_mount_filesystems] mounts the pairs of the table in ascending
    order of target path ([mkdir] then [mount] for each pair); when the
    body returns normally, the scope then issues one [umount] per pair, in
    the reverse of the mounting order, and nothing else: the log is the
    mounting commands, the commands of the body and the [umount]s. *)
Theorem mount_filesystems_normal_exit
    (partitions : partition_table) (root : string) (body : M unit)
    (log body_cmds : list command) :
  let pairs := mount_pairs partitions (Py.rstrip "/" root) in
  let mount_specs := Py.sorted pairs in
  all_succeed env log (acquire_cmds mount_specs) →
  body (log ++ acquire_cmds mount_specs) =
    (Ok tt, log ++ acquire_cmds mount_specs ++ body_cmds) →
  mount_specs ≡ₚ pairs ∧
  StronglySorted Py.tuple_le mount_specs ∧
  StronglySorted Py.str_le mount_specs.*1 ∧
  (_mount_filesystems env partitions root body log).2 =
    log ++
    flat_map (λ '(target, source),
                [["mkdir"; "-p"; target]; ["mount"; source; target]]) mount_specs ++
    body_cmds ++
    map (λ target, ["umount"; target]) (reverse mount_specs.*1) ∧
  length (map (λ target, ["umount"; target]) (reverse mount_specs.*1)) =
    length pairs ∧
  (all_succeed env (log ++ acquire_cmds mount_specs ++ body_cmds)
     (release_cmds mount_specs) →
   (_mount_filesystems env partitions root body log).1 = Ok tt).
Proof.
  intros pairs mount_specs Hacq Hbody.
  split; [apply PyFacts.sorted_permutation|].
  split; [apply PyFacts.sorted_ascending|].
  split; [apply PyFacts.sorted_targets_ascending|].
  unfold _mount_filesystems. fold pairs mount_specs.
  rewrite (do_mount_outcome _ _ _ Hacq), Hbody. cbn [fst snd].
  rewrite <- release_cmds_targets. split.
  { by rewrite <- !(assoc_L (++)). }
  split.
  - rewrite release_cmds_length. unfold mount_specs.
    by rewrite PyFacts.sorted_permutation.
  - intros Hrel. rewrite release_cmds_targets in Hrel.
    by rewrite (unwind_ok _ _ _ Hrel).
Qed.

(** C5: when the body of the mount scope is interrupted (it raises
    [KeyboardInterrupt], as [_run] does when the command it waits for is
    interrupted) with every pair mounted, the scope still issues the
    [umount] of every pair, deepest target first, before it raises; when
    the [umount]s succeed, what it raises is the interrupt. *)
Theorem mount_filesystems_interrupt
    (partitions : partition_table) (root : string) (body : M unit)
    (log log_body : list command) :
  let mount_specs := Py.sorted (mount_pairs partitions (Py.rstrip "/" root)) in
  all_succeed env log (acquire_cmds mount_specs) →
  body (log ++ acquire_cmds mount_specs) = (Raise KeyboardInterrupt, log_body) →
  (∀ c l, env l c = Interrupted → _run env c l = (Raise KeyboardInterrupt, l ++ [c])) ∧
  ∃ e : exception,
    _mount_filesystems env partitions root body log =
      (Raise e, log_body ++ release_cmds mount_specs) ∧
    release_cmds mount_specs =
      map (λ target, ["umount"; target]) (reverse mount_specs.*1) ∧
    length (release_cmds mount_specs) = length mount_specs ∧
    (all_succeed env log_body (release_cmds mount_specs) → e = KeyboardInterrupt).
Proof.
  intros mount_specs Hacq Hbody. split.
  { intros c l Hc. unfold _run. by rewrite Hc. }
  unfold _mount_filesystems. fold mount_specs.
  rewrite (do_mount_outcome _ _ _ Hacq), Hbody. simpl.
  destruct (unwind_raise (reverse mount_specs.*1) KeyboardInterrupt log_body)
    as [e He].
  exists e. rewrite He.
  repeat split; auto using release_cmds_length, release_cmds_targets.
  intros Hrel. rewrite release_cmds_targets in Hrel.
  rewrite (unwind_ok _ _ _ Hrel) in He. congruence.
Qed.

End Orchestrator.

Lemma mount_filesystems_normal_exit_witness :
  _mount_filesystems ok_env sample_table "/mnt/" (_run ok_env pacstrap) [] =
  (Ok tt,
   [["mkdir"; "-p"; "/mnt"]; ["mount"; "/dev/sda2"; "/mnt"];
    ["mkdir"; "-p"; "/mnt/boot"]; ["mount"; "/dev/sda1"; "/mnt/boot"];
    ["mkdir"; "-p"; "/mnt/home"]; ["mount"; "/dev/sda3"; "/mnt/home"];
    pacstrap;
    ["umount"; "/mnt/home"]; ["umount"; "/mnt/boot"]; ["umount"; "/mnt"]]).
Proof.
  destruct (mount_filesystems_normal_exit ok_env sample_table "/mnt/"
              (_run ok_env pacstrap) [] [pacstrap])
    as (_ & _ & _ & Hlog & _ & Hret); [by_evaluation ..|].
  rewrite (surjective_pairing (_mount_filesystems _ _ _ _ _)), Hlog, Hret;
    by_evaluation.
Defined.

Lemma do_mount_acquisition_failure_witness :
  ∃ e : exception,
    _do_mount (env_failing ["mount"; "/dev/sda3"; "/mnt/home"]) sample_specs
      (_run ok_env pacstrap) [] =
    (Raise e,
     [["mkdir"; "-p"; "/mnt"]; ["mount"; "/dev/sda2"; "/mnt"];
      ["mkdir"; "-p"; "/mnt/boot"]; ["mount"; "/dev/sda1"; "/mnt/boot"];
      ["mkdir"; "-p"; "/mnt/home"]; ["mount"; "/dev/sda3"; "/mnt/home"];
      ["umount"; "/mnt/boot"]; ["umount"; "/mnt"]]).
Proof.
  destruct (do_mount_acquisition_failure
              (env_failing ["mount"; "/dev/sda3"; "/mnt/home"])
              [("/mnt", "/dev/sda2"); ("/mnt/boot", "/dev/sda1")] []
              "/mnt/home" "/dev/sda3" (_run ok_env pacstrap) [])
    as (e0 & e & attempted & Hatt & Hone & Hrun & _).
  - by_evaluation.
  - right. by_evaluation.
  - exists e. destruct Hatt as [-> | ->].
    + vm_compute in Hone. discriminate Hone.
    + exact Hrun.
Defined.

Lemma do_mount_body_error_witness :
  ∃ e : exception,
    _do_mount (env_failing pacstrap) sample_specs
      (_run (env_failing pacstrap) pacstrap) [] =
    (Raise e,
     [["mkdir"; "-p"; "/mnt"]; ["mount"; "/dev/sda2"; "/mnt"];
      ["mkdir"; "-p"; "/mnt/boot"]; ["mount"; "/dev/sda1"; "/mnt/boot"];
      ["mkdir"; "-p"; "/mnt/home"]; ["mount"; "/dev/sda3"; "/mnt/home"];
      pacstrap;
      ["umount"; "/mnt/home"]; ["umount"; "/mnt/boot"]; ["umount"; "/mnt"]]) ∧
    e = CalledProcessError 1 pacstrap.
Proof.
  destruct (do_mount_body_error (env_failing pacstrap) sample_specs
              (_run (env_failing pacstrap) pacstrap) []
              (acquire_cmds sample_specs ++ [pacstrap])
              (CalledProcessError 1 pacstrap))
    as (e & Hrun & _ & He).
  - by_evaluation.
  - by_evaluation.
  - exists e. split; [exact Hrun|]. apply He. by_evaluation.
Defined.

Lemma do_mount_teardown_failure_witness :
  ∃ e : exception,
    _do_mount (env_failing ["umount"; "/mnt/boot"]) sample_specs
      (_run ok_env pacstrap) [] =
    (Raise e,
     [["mkdir"; "-p"; "/mnt"]; ["mount"; "/dev/sda2"; "/mnt"];
      ["mkdir"; "-p"; "/mnt/boot"]; ["mount"; "/dev/sda1"; "/mnt/boot"];
      ["mkdir"; "-p"; "/mnt/home"]; ["mount"; "/dev/sda3"; "/mnt/home"];
      pacstrap;
      ["umount"; "/mnt/home"]; ["umount"; "/mnt/boot"]; ["umount"; "/mnt"]]).
Proof.
  destruct (do_mount_teardown_failure (env_failing ["umount"; "/mnt/boot"])
              [("/mnt", "/dev/sda2")] [("/mnt/home", "/dev/sda3")]
              "/mnt/boot" "/dev/sda1" (_run ok_env pacstrap) [])
    as (e0 & e & _ & Hrun & _); [by_evaluation ..|].
  exists e. exact Hrun.
Defined.

Lemma mount_filesystems_interrupt_witness :
  _mount_filesystems (env_interrupting pacstrap) sample_table "/mnt"
    (_run (env_interrupting pacstrap) pacstrap) [] =
  (Raise KeyboardInterrupt,
   [["mkdir"; "-p"; "/mnt"]; ["mount"; "/dev/sda2"; "/mnt"];
    ["mkdir"; "-p"; "/mnt/boot"]; ["mount"; "/dev/sda1"; "/mnt/boot"];
    ["mkdir"; "-p"; "/mnt/home"]; ["mount"; "/dev/sda3"; "/mnt/home"];
    pacstrap;
    ["umount"; "/mnt/home"]; ["umount"; "/mnt/boot"]; ["umount"; "/mnt"]]).
Proof.
  destruct (mount_filesystems_interrupt (env_interrupting pacstrap)
              sample_table "/mnt" (_run (env_interrupting pacstrap) pacstrap) []
              (acquire_cmds sample_specs ++ [pacstrap]))
    as (_ & e & Hrun & _ & _ & He).
  - by_evaluation.
  - by_evaluation.
  - rewrite Hrun. f_equal. f_equal. apply He. by_evaluation.
Defined.

(** ** Mount spec resolver *)

Section Resolver.

Implicit Types (es : list (string * nat * Partition)).
Implicit Types (m : gmap string MountSpec).

Lemma fold_result_app {A S} (l1 l2 : list A) (f : A → S → result S) (s : S) :
  fold_result (l1 ++ l2) f s = s' ← fold_result l1 f s; fold_result l2 f s'.
Proof.
  revert s. induction l1 as [|x l1 IH]; intros s; simpl; [done|].
  destruct (f x s) as [s1|e]; simpl; auto.
Qed.

Lemma fold_result_map {A B S} (g : A → B) (l : list A) (f : B → S → result S) (s : S) :
  fold_result (map g l) f s = fold_result l (λ x, f (g x)) s.
Proof.
  revert s. induction l as [|x l IH]; intros s; simpl; [done|].
  destruct (f (g x) s) as [s1|e]; simpl; auto.
Qed.

Lemma fold_result_ext {A S} (l : list A) (f g : A → S → result S) (s : S) :
  (∀ x s, f x s = g x s) → fold_result l f s = fold_result l g s.
Proof.
  intros Hfg. revert s. induction l as [|x l IH]; intros s; simpl; [done|].
  rewrite Hfg. destruct (g x s) as [s1|e]; simpl; auto.
Qed.

(** The nested loops visit the entries of the table in order. *)
Lemma nested_loops_entries (partitions : partition_table) m :
  fold_result partitions (λ '(disk, partition_items) mount_points,
    fold_result (Py.enumerate 1 partition_items) (λ '(i, partition_item),
      record_mount_point disk i partition_item) mount_points) m =
  fold_result (table_entries partitions) step m.
Proof.
  revert m. induction partitions as [|[d items] ps IH]; intros m; [done|].
  cbn [fold_result table_entries flat_map]. rewrite fold_result_app, fold_result_map.
  rewrite (fold_result_ext _ _ (λ x, step (let '(i, p) := x in (d, i, p))));
    [|by intros [??] ?].
  destruct (fold_result (Py.enumerate 1 items) _ m) as [m1|e]; simpl; auto.
Qed.

Lemma get_mount_specs_entries (partitions : partition_table) :
  _get_mount_specs partitions =
  mount_points ← fold_result (table_entries partitions) step ∅;
  match mount_points !! "" with
  | Some root =>
      Ok {| root := root;
            boot := mount_points !! "/boot";
            home := mount_points !! "/home" |}
  | None => Raise (KeyError "")
  end.
Proof. unfold _get_mount_specs. by rewrite nested_loops_entries. Qed.

Lemma step_fresh e m :
  m !! normalized e = None → step e m = Ok (<[normalized e := spec_of e]> m).
Proof.
  intros Hm. unfold step, record_mount_point. fold (normalized e).
  rewrite bool_decide_eq_false_2; [done|]. rewrite Hm. by intros [??].
Qed.

Lemma step_taken e m :
  is_Some (m !! normalized e) → step e m = Raise (already_exists (normalized e)).
Proof.
  intros Hm. unfold step, record_mount_point. fold (normalized e).
  by rewrite bool_decide_eq_true_2.
Qed.

(** Entries with pairwise different mount points, none of them in the
    mapping yet, are all recorded. *)
Lemma fold_step_fresh es m :
  NoDup (normalized <$> es) →
  (∀ e, e ∈ es → m !! normalized e = None) →
  ∃ m', fold_result es step m = Ok m' ∧
    ∀ k spec, m' !! k = Some spec ↔
      m !! k = Some spec ∨ ∃ e, e ∈ es ∧ normalized e = k ∧ spec = spec_of e.
Proof.
  revert m. induction es as [|e es IH]; intros m Hnd Hfresh.
  - exists m. split; [done|]. intros k spec. split; [auto|].
    intros [?|(e & He & _)]; [done|]. by apply elem_of_nil in He.
  - rewrite fmap_cons, NoDup_cons in Hnd. destruct Hnd as [Hne Hnd].
    cbn [fold_result]. rewrite step_fresh by (apply Hfresh; left).
    destruct (IH (<[normalized e := spec_of e]> m) Hnd) as (m' & Hm' & Hlook).
    { intros e' He'. rewrite lookup_insert_ne.
      - apply Hfresh. by right.
      - intros Heq. apply Hne. rewrite Heq. by apply list_elem_of_fmap_2. }
    exists m'. split; [done|]. intros k spec. rewrite Hlook. split.
    + intros [Hins|(e' & He' & Hk & Hs)].
      * destruct (decide (normalized e = k)) as [<-|Hk].
        -- rewrite lookup_insert_eq in Hins. right. exists e.
           split; [left|]. split; [done|congruence].
        -- rewrite lookup_insert_ne in Hins by done. by left.
      * right. exists e'. split; [by right|done].
    + intros [Hm|(e' & He' & Hk & Hs)].
      * left. rewrite lookup_insert_ne; [done|].
        intros <-. rewrite Hfresh in Hm by left. done.
      * apply elem_of_cons in He' as [->|He'].
        -- left. subst. by rewrite lookup_insert_eq.
        -- right. by exists e'.
Qed.

(** The loops stop at the first entry whose mount point was seen before,
    whatever follows it. *)
Lemma fold_step_duplicate pre e post :
  NoDup (normalized <$> pre) →
  normalized e ∈ normalized <$> pre →
  fold_result (pre ++ e :: post) step ∅ = Raise (already_exists (normalized e)).
Proof.
  intros Hnd Hin. rewrite fold_result_app.
  destruct (fold_step_fresh pre ∅ Hnd) as (m' & -> & Hlook); [by intros|].
  cbn [mbind result_bind fold_result]. rewrite step_taken; [done|].
  apply list_elem_of_fmap in Hin as (e' & Hk & He').
  exists (spec_of e'). apply Hlook. right. by exists e'.
Qed.

(** A list with a repeated key splits at the first repetition. *)
Lemma first_duplicate es :
  ¬ NoDup (normalized <$> es) →
  ∃ pre e post, es = pre ++ e :: post ∧
    NoDup (normalized <$> pre) ∧ normalized e ∈ normalized <$> pre.
Proof.
  induction es as [|x es IH] using rev_ind; intros Hdup.
  - destruct Hdup. constructor.
  - destruct (decide (NoDup (normalized <$> es))) as [Hnd|Hnd].
    + exists es, x, []. split; [done|]. split; [done|].
      destruct (decide (normalized x ∈ normalized <$> es)) as [|Hx]; [done|].
      destruct Hdup. rewrite fmap_app. apply NoDup_app. split; [done|].
      split; [|apply NoDup_singleton].
      intros k Hk Hk'. apply list_elem_of_singleton in Hk'. by subst.
    + destruct (IH Hnd) as (pre & e & post & -> & Hpre & He).
      exists pre, e, (post ++ [x]). by rewrite <- (assoc_L (++)).
Qed.

Lemma elem_of_table_entries (partitions : partition_table) d i p :
  (d, i, p) ∈ table_entries partitions ↔
  ∃ partition_items, (d, partition_items) ∈ partitions ∧
    (1 ≤ i)%nat ∧ partition_items !! (i - 1)%nat = Some p.
Proof.
  unfold table_entries. rewrite list_elem_of_In, in_flat_map. split.
  - intros ([d' items] & Hin & Hmap). apply list_elem_of_In in Hin.
    apply list_elem_of_In, list_elem_of_fmap in Hmap as ([i' p'] & Heq & Hip).
    simplify_eq. apply PyFacts.elem_of_enumerate in Hip. by exists items.
  - intros (items & Hin & Hi & Hp). exists (d, items).
    split; [by apply list_elem_of_In|].
    apply list_elem_of_In, list_elem_of_fmap. exists (i, p). split; [done|].
    by apply PyFacts.elem_of_enumerate.
Qed.

Lemma entry_resolves (partitions : partition_table) e :
  e ∈ table_entries partitions →
  resolves_to partitions (normalized e) (spec_of e).
Proof.
  destruct e as [[d i] p]. rewrite elem_of_table_entries.
  intros (items & Hin & Hi & Hp). by exists items, p.
Qed.

(** C6, amended: when two partitions of the table have the same
    normalized mount point, [_get_mount_specs] raises the duplicate error
    for the first entry, in loop order, whose mount point was seen before;
    the entries after it have no influence on the outcome.  The resolver
    issues no command, and [_configure_system], which calls it, raises the
    error with the log as it found it: from the call of the resolver on,
    nothing is mounted.  What was mounted before the call stays out of
    this statement. *)
Theorem get_mount_specs_duplicate
    (table : partition_table) (i j : nat) (e1 e2 : string * nat * Partition) :
  i ≠ j →
  table_entries table !! i = Some e1 →
  table_entries table !! j = Some e2 →
  normalized e1 = normalized e2 →
  ∃ pre e post,
    table_entries table = pre ++ e :: post ∧
    NoDup (normalized <$> pre) ∧
    normalized e ∈ normalized <$> pre ∧
    _get_mount_specs table = Raise (already_exists (normalized e)) ∧
    (∀ (partitions' : partition_table) post',
       table_entries partitions' = pre ++ e :: post' →
       _get_mount_specs partitions' = Raise (already_exists (normalized e))) ∧
    (∀ log : list command,
       call (_get_mount_specs table) log =
       (Raise (already_exists (normalized e)), log)) ∧
    (∀ (env : environment) (default_network_interface : result string)
       (configuration : Configuration) (root_dir : string) (log : list command),
       partitions configuration = table →
       _configure_system env default_network_interface configuration root_dir log =
       (Raise (already_exists (normalized e)), log)).
Proof.
  intros Hij H1 H2 Hk.
  destruct (first_duplicate (table_entries table)) as (pre & e & post & Hes & Hnd & Hin).
  { intros Hnd. apply Hij. eapply (proj1 (NoDup_alt _) Hnd).
    - rewrite list_lookup_fmap, H1. done.
    - rewrite list_lookup_fmap, H2. simpl. by rewrite Hk. }
  assert (∀ (partitions' : partition_table) post',
    table_entries partitions' = pre ++ e :: post' →
    _get_mount_specs partitions' = Raise (already_exists (normalized e))) as Hall.
  { intros partitions' post' Hes'.
    rewrite get_mount_specs_entries, Hes', fold_step_duplicate; done. }
  exists pre, e, post.
  split; [done|]. split; [done|]. split; [done|]. split; [by eapply Hall|].
  split; [done|]. split.
  - intros log. unfold call. by erewrite Hall.
  - intros env iface configuration root_dir log <-.
    unfold _configure_system, mbind, M_bind, call. by erewrite Hall.
Qed.

(** C7: for a table without repeated normalized mount points in which
    some partition mounts at the root, [_get_mount_specs] returns; the root
    of its result is the partition that mounts at the root, [boot] and
    [home] are present exactly when a partition mounts at [/boot] and
    [/home], and each returned [MountSpec] names the disk of its partition
    and the position of the partition on that disk, counted from one. *)
Theorem get_mount_specs_resolves (partitions : partition_table) :
  NoDup (normalized <$> table_entries partitions) →
  "" ∈ normalized <$> table_entries partitions →
  ∃ mount_specs : MountSpecs,
    _get_mount_specs partitions = Ok mount_specs ∧
    resolves_to partitions "" (root mount_specs) ∧
    (is_Some (boot mount_specs) ↔ "/boot" ∈ normalized <$> table_entries partitions) ∧
    (∀ spec, boot mount_specs = Some spec → resolves_to partitions "/boot" spec) ∧
    (is_Some (home mount_specs) ↔ "/home" ∈ normalized <$> table_entries partitions) ∧
    (∀ spec, home mount_specs = Some spec → resolves_to partitions "/home" spec).
Proof.
  intros Hnd Hroot. rewrite get_mount_specs_entries.
  destruct (fold_step_fresh (table_entries partitions) ∅ Hnd) as (m & -> & Hlook);
    [by intros|].
  assert (∀ k spec, m !! k = Some spec → resolves_to partitions k spec) as Hres.
  { intros k spec [Hm|(e & He & <- & ->)]%Hlook; [done|]. by apply entry_resolves. }
  assert (∀ k, is_Some (m !! k) ↔ k ∈ normalized <$> table_entries partitions) as Hdom.
  { intros k. split.
    - intros [spec [Hm|(e & He & <- & _)]%Hlook]; [done|].
      by apply list_elem_of_fmap_2.
    - intros (e & -> & He)%list_elem_of_fmap. exists (spec_of e).
      apply Hlook. right. by exists e. }
  cbn [mbind result_bind].
  destruct (proj2 (Hdom "") Hroot) as [r Hr]. rewrite Hr.
  eexists. split; [done|]. simpl. rewrite !Hdom. eauto 10.
Qed.

End Resolver.

Lemma get_mount_specs_duplicate_witness :
  ∃ e,
    _get_mount_specs duplicate_table = Raise (already_exists (normalized e)) ∧
    _configure_system ok_env (Ok "eth0") duplicate_configuration "/mnt" [] =
    (Raise (already_exists (normalized e)), []).
Proof.
  destruct (get_mount_specs_duplicate duplicate_table 0 4
    ("/dev/sda", 1, {| size := Some 256%Z; partition_type := EFI_SYSTEM;
                        file_system := FAT32; mount_point := "/boot" |})
    ("/dev/sdb", 2, {| size := None; partition_type := LINUX_HOME;
                        file_system := EXT4; mount_point := "/boot" |}))
    as (pre & e & post & _ & _ & _ & Hraise & _ & _ & Hcaller); [by_evaluation ..|].
  exists e. split; [done|]. by apply Hcaller.
Defined.

(** The claim as worded fails on the program: with the table that repeats
    [/home], the resolver raises the duplicate error, but [main] calls it
    only inside the mount scope, after the file systems were mounted. *)
Lemma get_mount_specs_duplicate_counterexample :
  ¬ (_get_mount_specs (partitions duplicate_configuration) =
       Raise (ValueError "Mount point “/home” already exists.") ∧
     no_mount_performed (main ok_env (Ok "eth0") duplicate_configuration []).2).
Proof. intros [_ Hmounts]. vm_compute in Hmounts. discriminate Hmounts. Qed.

Example main_duplicate_table_mounts :
  ["mount"; "/dev/sda2"; "/mnt"] ∈
    (main ok_env (Ok "eth0") duplicate_configuration []).2 ∧
  (main ok_env (Ok "eth0") duplicate_configuration []).1 =
    Raise (ValueError "Mount point “/home” already exists.").
Proof. split; [by_decision|reflexivity]. Qed.

(** On [duplicate_table] the mount point reported is [/home], repeated by
    the fourth entry, and not [/boot], repeated by the fifth. *)
Example get_mount_specs_duplicate_table :
  _get_mount_specs duplicate_table =
  Raise (ValueError "Mount point “/home” already exists.").
Proof. reflexivity. Qed.

Lemma get_mount_specs_resolves_witness :
  ∃ mount_specs : MountSpecs,
    _get_mount_specs sample_table = Ok mount_specs ∧
    resolves_to sample_table "" (root mount_specs).
Proof.
  destruct (get_mount_specs_resolves sample_table)
    as (mount_specs & Hrun & Hroot & _); [by_decision ..|].
  by exists mount_specs.
Defined.

(** ** Loops of commands *)

Section Commands.

Variable env : environment.

Lemma all_succeed_ok_env (log cmds : list command) : all_succeed ok_env log cmds.
Proof. revert log. induction cmds; intros log; simpl; auto. Qed.

Lemma bind_ext {A B} (m : M A) (k k' : A → M B) log :
  (∀ a l, k a l = k' a l) → (m ≫= k) log = (m ≫= k') log.
Proof.
  intros Hk. unfold mbind, M_bind. by destruct (m log) as [[a|e] l].
Qed.

Lemma for_each_app {A} (l1 l2 : list A) (f : A → M unit) log :
  for_each (l1 ++ l2) f log = (for_each l1 f;; for_each l2 f) log.
Proof.
  revert log. induction l1 as [|x l1 IH]; intros log; [done|].
  cbn [app for_each]. unfold mbind, M_bind in *.
  destruct (f x log) as [[[]|e] l]; [|done]. by rewrite IH.
Qed.

(** A loop whose iterations run the commands [cmds x], all successful,
    issues them in order. *)
Lemma for_each_cmds {A} (l : list A) (f : A → M unit) (cmds : A → list command) log :
  (∀ x log, all_succeed env log (cmds x) → f x log = (Ok tt, log ++ cmds x)) →
  all_succeed env log (flat_map cmds l) →
  for_each l f log = (Ok tt, log ++ flat_map cmds l).
Proof.
  intros Hf. revert log. induction l as [|x l IH]; intros log Hall.
  - simpl. by rewrite app_nil_r.
  - cbn [flat_map for_each] in *. apply all_succeed_app in Hall as [Hx Hl].
    unfold mbind, M_bind. rewrite (Hf _ _ Hx), (IH _ Hl).
    by rewrite (assoc_L (++)).
Qed.

(** The body of the inner loop of [_partition]. *)
Lemma partition_item_cmds (d : string) (ip : nat * Partition) log :
  all_succeed env log (item_cmds create_cmd d ip) →
  (let '(i, partition_item) := ip in
   (if truthy (size partition_item)
    then _run env ["sgdisk";
                   "-n=" +:+ Py.str_nat i +:+ ":0:+" +:+
                     Py.str_optional_int (size partition_item) +:+ "M";
                   d]
    else _run env ["sgdisk"; "-n=" +:+ Py.str_nat i +:+ ":0:0"; d]);;
   _run env ["sgdisk";
             "-t=" +:+ Py.str_nat i +:+ ":" +:+ type_id (partition_type partition_item);
             d];;
   _run env (formatter (file_system partition_item) ++ [d +:+ Py.str_nat i])) log =
  (Ok tt, log ++ item_cmds create_cmd d ip).
Proof.
  destruct ip as [i p]. unfold item_cmds. cbn [fst snd all_succeed].
  intros (Hc & Ht & Hf & _). unfold mbind, M_bind.
  assert ((if truthy (size p)
           then _run env ["sgdisk";
                          "-n=" +:+ Py.str_nat i +:+ ":0:+" +:+
                            Py.str_optional_int (size p) +:+ "M"; d]
           else _run env ["sgdisk"; "-n=" +:+ Py.str_nat i +:+ ":0:0"; d]) =
          _run env (create_cmd d i (size p))) as ->.
  { unfold create_cmd, truthy. destruct (size p) as [z|]; [|done].
    simpl. case_bool_decide; destruct (Z.eqb_spec z 0); done. }
  rewrite (run_ok _ _ _ Hc), (run_ok _ _ _ Ht), (run_ok _ _ _ Hf).
  by rewrite <- !(assoc_L (++)).
Qed.

Lemma partition_ok (partitions : partition_table) log :
  all_succeed env log (partition_cmds partitions) →
  _partition env partitions log = (Ok tt, log ++ partition_cmds partitions).
Proof.
  apply for_each_cmds. clear log. intros [d items] log Hall.
  unfold disk_cmds in *. cbn [fst snd all_succeed] in *. destruct Hall as [Hz Hall].
  unfold mbind, M_bind. rewrite (run_ok _ _ _ Hz).
  erewrite (for_each_cmds _ _ (item_cmds create_cmd d));
    [|intros ip l; apply (partition_item_cmds d ip l)|exact Hall].
  by rewrite <- (assoc_L (++)).
Qed.

(** Where the commands of one partition stand among those of the table. *)
Lemma partition_cmds_split create (dpre dpost : partition_table) (d : string)
    (pre post : list Partition) (p : Partition) :
  flat_map (disk_cmds create) (dpre ++ (d, pre ++ p :: post) :: dpost) =
  (flat_map (disk_cmds create) dpre ++ [["sgdisk"; "-Z"; d]] ++
   flat_map (item_cmds create d) (Py.enumerate 1 pre)) ++
  item_cmds create d (S (length pre), p) ++
  (flat_map (item_cmds create d) (Py.enumerate (S (S (length pre))) post) ++
   flat_map (disk_cmds create) dpost).
Proof.
  rewrite flat_map_app. cbn [flat_map]. unfold disk_cmds at 2. cbn [fst snd].
  rewrite PyFacts.enumerate_app, flat_map_app. cbn [Py.enumerate flat_map].
  rewrite <- !(assoc_L (++)). f_equal.
  change (1 + length pre)%nat with (S (length pre)).
  cbn [app]. f_equal. by rewrite <- !(assoc_L (++)).
Qed.

Lemma item_cmds_length create (d : string) (l : list (nat * Partition)) :
  length (flat_map (item_cmds create d) l) = (3 * length l)%nat.
Proof. induction l as [|x l IH]; simpl in *; lia. Qed.

Lemma for_each_middle {A} (l1 l2 : list A) (x y : A) (f : A → M unit) log :
  (∀ l, f x l = f y l) →
  for_each (l1 ++ x :: l2) f log = for_each (l1 ++ y :: l2) f log.
Proof.
  intros Hxy. rewrite !for_each_app. apply bind_ext. intros _ l.
  cbn [for_each]. unfold mbind, M_bind. by rewrite Hxy.
Qed.

(** A size of 0 and an absent size run the same commands, in every
    environment. *)
Lemma partition_zero_as_absent (dpre dpost : partition_table) (d : string)
    (pre post : list Partition) (p : Partition) log :
  size p = Some 0%Z →
  _partition env (dpre ++ (d, pre ++ p :: post) :: dpost) log =
  _partition env (dpre ++ (d, pre ++ with_size None p :: post) :: dpost) log.
Proof.
  intros Hsize. unfold _partition. apply for_each_middle. intros l.
  apply bind_ext. intros _ l'. rewrite !PyFacts.enumerate_app.
  cbn [Py.enumerate]. apply for_each_middle. intros l''.
  simpl. by rewrite Hsize.
Qed.

Lemma fstab_lines_records (mount_specs : MountSpecs) :
  map (λ line, Py.join "  " (map_str line)) (fstab_lines mount_specs) =
  fstab_records mount_specs.
Proof.
  unfold fstab_lines, fstab_records. cbn [foldl].
  destruct (boot mount_specs) as [b|], (home mount_specs) as [h|];
    repeat case_bool_decide; try done; try congruence.
Qed.

Lemma append_line_emit (root content : string) :
  _append_line_to_file env content (Py.os_path_join root "etc/fstab") =
  _run env (emit_cmd root content).
Proof. done. Qed.

Lemma flat_map_single {A B} (g : A → B) (l : list A) :
  flat_map (λ x, [g x]) l = map g l.
Proof. induction l; simpl; congruence. Qed.

Lemma write_fstab_ok (mount_specs : MountSpecs) (root : string) log :
  all_succeed env log (map (emit_cmd root) (fstab_records mount_specs)) →
  _write_fstab env mount_specs root log =
  (Ok tt, log ++ map (emit_cmd root) (fstab_records mount_specs)).
Proof.
  rewrite <- fstab_lines_records, map_map, <- flat_map_single.
  intros Hall. unfold _write_fstab.
  apply (for_each_cmds _ _ (λ line, [emit_cmd root (Py.join "  " (map_str line))]));
    [|done].
  intros line l [Hok _]. rewrite append_line_emit. by apply run_ok.
Qed.

(** C8: [_write_fstab] builds one record for [boot] and one for [home],
    in that order, each only when the role is present and its disk is not
    the disk of the root; a record is the physical partition identifier
    (the disk path followed by the decimal partition index), the mount
    point, the file system name, [defaults], [0] and [0], separated by two
    spaces.  When the commands succeed, each record is appended to the
    fstab file by one command, and nothing else is issued. *)
Theorem write_fstab_records (mount_specs : MountSpecs) (root_dir : string)
    (log : list command) :
  let records :=
    (match boot mount_specs with
     | Some b =>
         if bool_decide (disk b = disk (root mount_specs)) then []
         else [(disk b +:+ Py.str_nat (partition_id b)) +:+ "  /boot  " +:+
               file_system_name b +:+ "  defaults  0  0"]
     | None => []
     end) ++
    (match home mount_specs with
     | Some h =>
         if bool_decide (disk h = disk (root mount_specs)) then []
         else [(disk h +:+ Py.str_nat (partition_id h)) +:+ "  /home  " +:+
               file_system_name h +:+ "  defaults  0  0"]
     | None => []
     end) in
  all_succeed env log (map (emit_cmd root_dir) (fstab_records mount_specs)) →
  map (λ line, Py.join "  " (map_str line)) (fstab_lines mount_specs) = records ∧
  _write_fstab env mount_specs root_dir log =
    (Ok tt,
     log ++
     map (λ record,
            ["sh"; "-c";
             "printf '%s\n' " +:+ Py.shlex_quote record +:+
             " >> " +:+ Py.shlex_quote (Py.os_path_join root_dir "etc/fstab")])
         records).
Proof.
  intros records Hall.
  assert (fstab_records mount_specs = records) as Hrecords.
  { unfold records, fstab_records, fstab_record, partition.
    destruct (boot mount_specs) as [b|], (home mount_specs) as [h|];
      repeat case_bool_decide; done. }
  split.
  - by rewrite fstab_lines_records.
  - by rewrite (write_fstab_ok _ _ _ Hall), Hrecords.
Qed.

(** C9, amended: when its commands succeed, [_partition] issues, for each
    disk in turn, the command that wipes the partition table and then, for
    each partition in list order, numbered from one: the creation command
    (sized [+<size>M] when the size is given and is not 0, the rest of the
    disk when the size is absent or 0), the command that sets the type
    code, and the formatter on the disk path followed by the number.  The
    commands of a partition stand after those of the partitions listed
    before it and before those of the partitions listed after it. *)
Theorem partition_commands (partitions : partition_table) (log : list command) :
  all_succeed env log (partition_cmds partitions) →
  _partition env partitions log = (Ok tt, log ++ partition_cmds partitions) ∧
  ∀ (dpre dpost : partition_table) (d : string) (pre post : list Partition)
    (p : Partition),
    partitions = dpre ++ (d, pre ++ p :: post) :: dpost →
    let i := S (length pre) in
    partition_cmds partitions =
      (partition_cmds dpre ++ [["sgdisk"; "-Z"; d]] ++
       flat_map (item_cmds create_cmd d) (Py.enumerate 1 pre)) ++
      [ match size p with
        | Some z =>
            if bool_decide (z = 0%Z)
            then ["sgdisk"; "-n=" +:+ Py.str_nat i +:+ ":0:0"; d]
            else ["sgdisk"; "-n=" +:+ Py.str_nat i +:+ ":0:+" +:+ Py.str_int z +:+ "M"; d]
        | None => ["sgdisk"; "-n=" +:+ Py.str_nat i +:+ ":0:0"; d]
        end;
        ["sgdisk"; "-t=" +:+ Py.str_nat i +:+ ":" +:+ type_id (partition_type p); d];
        formatter (file_system p) ++ [d +:+ Py.str_nat i] ] ++
      (flat_map (item_cmds create_cmd d) (Py.enumerate (S i) post) ++
       partition_cmds dpost).
Proof.
  intros Hall. split; [by apply partition_ok|].
  intros dpre dpost d pre post p -> i. apply partition_cmds_split.
Qed.

(** C10: a partition whose size is 0 gets the creation command for the
    rest of the disk, at the place of its creation command in the sequence;
    the partitioner runs exactly as it does when the size is absent. *)
Theorem partition_zero_size (dpre dpost : partition_table) (d : string)
    (pre post : list Partition) (p : Partition) (log : list command) :
  let partitions := dpre ++ (d, pre ++ p :: post) :: dpost in
  let i := S (length pre) in
  size p = Some 0%Z →
  all_succeed env log (partition_cmds partitions) →
  (∀ l, _partition env partitions l =
        _partition env (dpre ++ (d, pre ++ with_size None p :: post) :: dpost) l) ∧
  ∃ before after : list command,
    _partition env partitions log =
      (Ok tt,
       log ++ before ++
       [["sgdisk"; "-n=" +:+ Py.str_nat i +:+ ":0:0"; d]] ++ after) ∧
    length before = (length (partition_cmds dpre) + 1 + 3 * length pre)%nat.
Proof.
  intros partitions i Hsize Hall. split.
  { intros l. by apply partition_zero_as_absent. }
  rewrite (partition_ok _ _ Hall). unfold partitions, partition_cmds.
  rewrite partition_cmds_split. unfold item_cmds at 2. cbn [fst snd].
  rewrite Hsize. cbn [create_cmd]. rewrite bool_decide_eq_true_2 by done.
  eexists _, _. split.
  - reflexivity.
  - rewrite !length_app, item_cmds_length, PyFacts.enumerate_length. simpl. lia.
Qed.

End Commands.

Lemma write_fstab_records_witness :
  _write_fstab ok_env sample_mount_specs "/mnt" [] =
  (Ok tt,
   [["sh"; "-c";
     "printf '%s\n' '/dev/sdb12  /home  btrfs  defaults  0  0' >> /mnt/etc/fstab"]]).
Proof.
  destruct (write_fstab_records ok_env sample_mount_specs "/mnt" [])
    as [_ Hrun]; [by_evaluation|].
  rewrite Hrun. reflexivity.
Defined.

(** The claim as worded fails on a partition of size 0: the command issued
    is the one for the rest of the disk, not [-n=1:0:+0M]. *)
Lemma partition_by_presence_counterexample :
  ¬ (all_succeed ok_env [] (partition_cmds_by_presence zero_size_table) →
     _partition ok_env zero_size_table [] =
     (Ok tt, [] ++ partition_cmds_by_presence zero_size_table)).
Proof.
  intros H. specialize (H (all_succeed_ok_env _ _)).
  vm_compute in H. discriminate H.
Qed.

Example partition_zero_size_table :
  _partition ok_env zero_size_table [] =
  (Ok tt,
   [["sgdisk"; "-Z"; "/dev/sda"]; ["sgdisk"; "-n=1:0:0"; "/dev/sda"];
    ["sgdisk"; "-t=1:8304"; "/dev/sda"]; ["mkfs.ext4"; "/dev/sda1"]]).
Proof. reflexivity. Qed.

Lemma partition_commands_witness :
  _partition ok_env sample_table [] =
  (Ok tt,
   [["sgdisk"; "-Z"; "/dev/sda"];
    ["sgdisk"; "-n=1:0:+256M"; "/dev/sda"]; ["sgdisk"; "-t=1:ef00"; "/dev/sda"];
    ["mkfs.fat"; "-F32"; "/dev/sda1"];
    ["sgdisk"; "-n=2:0:+10240M"; "/dev/sda"]; ["sgdisk"; "-t=2:8304"; "/dev/sda"];
    ["mkfs.ext4"; "/dev/sda2"];
    ["sgdisk"; "-n=3:0:0"; "/dev/sda"]; ["sgdisk"; "-t=3:8302"; "/dev/sda"];
    ["mkfs.btrfs"; "-f"; "/dev/sda3"]]).
Proof.
  destruct (partition_commands ok_env sample_table []) as [Hrun _];
    [by_evaluation|].
  rewrite Hrun. reflexivity.
Defined.

Lemma partition_zero_size_witness :
  ∃ before after : list command,
    _partition ok_env zero_size_table [] =
      (Ok tt, [] ++ before ++ [["sgdisk"; "-n=1:0:0"; "/dev/sda"]] ++ after) ∧
    length before = 1.
Proof.
  destruct (partition_zero_size ok_env [] [] "/dev/sda" [] []
              {| size := Some 0%Z; partition_type := LINUX_X86_64_ROOT;
                 file_system := EXT4; mount_point := "/" |} [])
    as (_ & before & after & Hrun & Hlen); [by_evaluation ..|].
  by exists before, after.
Defined.

(** ** Scripts: runs of commands that stop at the first failure *)

Section Scripts.

Variable env : environment.

Lemma bind_ret_r (m : M unit) log : (m;; mret tt) log = m log.
Proof. unfold mbind, M_bind, mret, M_ret. by destruct (m log) as [[[]|e] l]. Qed.

Lemma bind_assoc {A B C} (m : M A) (k : A → M B) (h : B → M C) log :
  ((m ≫= k) ≫= h) log = (m ≫= λ a, k a ≫= h) log.
Proof. unfold mbind, M_bind. by destruct (m log) as [[a|e] l]. Qed.

Lemma bind_ext_l {A B} (m m' : M A) (k : A → M B) log :
  m log = m' log → (m ≫= k) log = (m' ≫= k) log.
Proof. unfold mbind, M_bind. by intros ->. Qed.

Lemma run_all_app (cs1 cs2 : list command) log :
  run_all env (cs1 ++ cs2) log = (run_all env cs1;; run_all env cs2) log.
Proof. apply for_each_app. Qed.

Lemma run_all_ok (cmds : list command) log :
  all_succeed env log cmds → run_all env cmds log = (Ok tt, log ++ cmds).
Proof.
  revert log. induction cmds as [|c cmds IH]; intros log Hall.
  - simpl. by rewrite app_nil_r.
  - destruct Hall as [Hc Hall]. cbn [run_all for_each]. unfold mbind, M_bind.
    rewrite (run_ok _ _ _ Hc). fold (run_all env cmds). rewrite (IH _ Hall).
    by rewrite <- (assoc_L (++)).
Qed.

(** A script stops at its first failing command and raises what [_run]
    raised for it. *)
Lemma run_all_failure (done rest : list command) (c : command) log :
  all_succeed env log done →
  fails env (log ++ done) c →
  ∃ e, _run env c (log ++ done) = (Raise e, log ++ done ++ [c]) ∧
       run_all env (done ++ c :: rest) log = (Raise e, log ++ done ++ [c]).
Proof.
  intros Hdone Hfail. destruct (run_fails _ _ _ Hfail) as [e He].
  rewrite <- (assoc_L (++)) in He.
  exists e. split; [done|]. rewrite run_all_app. unfold mbind, M_bind.
  rewrite (run_all_ok _ _ Hdone). cbn [run_all for_each]. unfold mbind, M_bind.
  by rewrite He.
Qed.

(** Every run of a script ends in one of two ways. *)
Lemma run_all_cases (cmds : list command) log :
  all_succeed env log cmds ∨
  ∃ done c rest, cmds = done ++ c :: rest ∧
    all_succeed env log done ∧ fails env (log ++ done) c.
Proof.
  revert log. induction cmds as [|c cmds IH]; intros log; [by left|].
  destruct (env log c) as [[| |]|] eqn:Hc.
  - destruct (IH (log ++ [c])) as [Hall|(done & c' & rest & -> & Hdone & Hf)].
    + left. by split.
    + right. exists (c :: done), c', rest. split; [done|]. split; [by split|].
      by rewrite (cons_middle c), (assoc_L (++)).
  - right. exists [], c, cmds. rewrite app_nil_r. unfold fails. by rewrite Hc.
  - right. exists [], c, cmds. rewrite app_nil_r. unfold fails. by rewrite Hc.
  - right. exists [], c, cmds. rewrite app_nil_r. unfold fails. by rewrite Hc.
Qed.

Lemma for_each_script {A} (l : list A) (f : A → M unit) (cmds : A → list command) :
  (∀ x log, f x log = run_all env (cmds x) log) →
  ∀ log, for_each l f log = run_all env (flat_map cmds l) log.
Proof.
  intros Hf. induction l as [|x l IH]; intros log; [done|].
  cbn [for_each flat_map]. rewrite run_all_app. unfold mbind, M_bind.
  rewrite Hf. destruct (run_all env (cmds x) log) as [[[]|e] l']; [|done].
  apply IH.
Qed.

(** In every environment, [_partition] is the script of its commands. *)
Lemma partition_script (partitions : partition_table) log :
  _partition env partitions log = run_all env (partition_cmds partitions) log.
Proof.
  revert log. apply for_each_script. intros [d items] log.
  unfold disk_cmds. cbn [fst snd run_all for_each]. apply bind_ext. intros _ l.
  apply for_each_script. clear l. intros [i p] l. unfold item_cmds.
  cbn [fst snd run_all for_each].
  assert ((if truthy (size p)
           then _run env ["sgdisk";
                          "-n=" +:+ Py.str_nat i +:+ ":0:+" +:+
                            Py.str_optional_int (size p) +:+ "M"; d]
           else _run env ["sgdisk"; "-n=" +:+ Py.str_nat i +:+ ":0:0"; d]) =
          _run env (create_cmd d i (size p))) as ->.
  { unfold create_cmd, truthy. destruct (size p) as [z|]; [|done].
    simpl. case_bool_decide; destruct (Z.eqb_spec z 0); done. }
  apply bind_ext. intros _ l1. apply bind_ext. intros _ l2.
  by rewrite bind_ret_r.
Qed.

(** X1: [_partition] stops at the first command that fails: the commands
    before it have been issued, the failing one is the last, and what
    [_run] raised for it is raised; nothing is rolled back. *)
Theorem partition_stops_at_failure
    (partitions : partition_table) (done rest : list command) (c : command)
    (log : list command) :
  partition_cmds partitions = done ++ c :: rest →
  all_succeed env log done →
  fails env (log ++ done) c →
  ∃ e : exception,
    _run env c (log ++ done) = (Raise e, log ++ done ++ [c]) ∧
    _partition env partitions log = (Raise e, log ++ done ++ [c]).
Proof.
  intros Hcmds Hdone Hfail. rewrite partition_script, Hcmds.
  by apply run_all_failure.
Qed.

End Scripts.

Lemma partition_stops_at_failure_witness :
  ∃ e : exception,
    _partition (env_failing ["mkfs.ext4"; "/dev/sda2"]) sample_table [] =
    (Raise e,
     [["sgdisk"; "-Z"; "/dev/sda"];
      ["sgdisk"; "-n=1:0:+256M"; "/dev/sda"]; ["sgdisk"; "-t=1:ef00"; "/dev/sda"];
      ["mkfs.fat"; "-F32"; "/dev/sda1"];
      ["sgdisk"; "-n=2:0:+10240M"; "/dev/sda"]; ["sgdisk"; "-t=2:8304"; "/dev/sda"];
      ["mkfs.ext4"; "/dev/sda2"]]).
Proof.
  destruct (partition_stops_at_failure (env_failing ["mkfs.ext4"; "/dev/sda2"])
              sample_table
              [["sgdisk"; "-Z"; "/dev/sda"];
               ["sgdisk"; "-n=1:0:+256M"; "/dev/sda"];
               ["sgdisk"; "-t=1:ef00"; "/dev/sda"];
               ["mkfs.fat"; "-F32"; "/dev/sda1"];
               ["sgdisk"; "-n=2:0:+10240M"; "/dev/sda"];
               ["sgdisk"; "-t=2:8304"; "/dev/sda"]]
              [["sgdisk"; "-n=3:0:0"; "/dev/sda"];
               ["sgdisk"; "-t=3:8302"; "/dev/sda"];
               ["mkfs.btrfs"; "-f"; "/dev/sda3"]]
              ["mkfs.ext4"; "/dev/sda2"] [])
    as (e & _ & Hrun); [by_evaluation ..|].
  by exists e.
Defined.

(** ** The mount scope in every environment *)

Section Scope.

Variable env : environment.

Lemma exited_zero_cases (c : completion) : c = Exited 0 ∨ c ≠ Exited 0.
Proof. destruct c as [[| |]|]; auto. Qed.

Lemma do_mount_head_fails (target source : string)
    (post : list (string * string)) (body : M unit) log :
  let mkdir := ["mkdir"; "-p"; target] in
  let mount := ["mount"; source; target] in
  fails env log mkdir ∨ (env log mkdir = Exited 0 ∧ fails env (log ++ [mkdir]) mount) →
  ∃ e attempted,
    ((fails env log mkdir ∧ attempted = [mkdir]) ∨
     (env log mkdir = Exited 0 ∧ fails env (log ++ [mkdir]) mount ∧
      attempted = [mkdir; mount])) ∧
    _do_mount env ((target, source) :: post) body log = (Raise e, log ++ attempted).
Proof.
  intros mkdir mount Hfail. simpl. fold mkdir mount. unfold mbind, M_bind.
  destruct Hfail as [Hmk|[Hmk Hmnt]].
  - destruct (run_fails _ _ _ Hmk) as [e He]. exists e, [mkdir]. rewrite He. auto.
  - rewrite (run_ok _ _ _ Hmk).
    destruct (run_fails _ _ _ Hmnt) as [e He]. exists e, [mkdir; mount].
    rewrite He, <- (assoc_L (++)). auto.
Qed.

(** Mounting either succeeds for every pair or stops at a first pair whose
    [mkdir] or [mount] fails. *)
Lemma acquire_cases (mount_specs : list (string * string)) log :
  all_succeed env log (acquire_cmds mount_specs) ∨
  ∃ acquired target source rest,
    mount_specs = acquired ++ (target, source) :: rest ∧
    all_succeed env log (acquire_cmds acquired) ∧
    (fails env (log ++ acquire_cmds acquired) ["mkdir"; "-p"; target] ∨
     (env (log ++ acquire_cmds acquired) ["mkdir"; "-p"; target] = Exited 0 ∧
      fails env ((log ++ acquire_cmds acquired) ++ [["mkdir"; "-p"; target]])
        ["mount"; source; target])).
Proof.
  revert log. induction mount_specs as [|[t s] specs IH]; intros log; [by left|].
  destruct (exited_zero_cases (env log ["mkdir"; "-p"; t])) as [Hmk|Hmk];
    [destruct (exited_zero_cases (env (log ++ [["mkdir"; "-p"; t]]) ["mount"; s; t]))
       as [Hmnt|Hmnt]|].
  - destruct (IH ((log ++ [["mkdir"; "-p"; t]]) ++ [["mount"; s; t]]))
      as [Hall|(acq & t' & s' & rest & -> & Hacq & Hf)].
    + left. by repeat split.
    + right. exists ((t, s) :: acq), t', s', rest. split; [done|].
      split; [by repeat split|].
      replace (log ++ acquire_cmds ((t, s) :: acq))
        with (((log ++ [["mkdir"; "-p"; t]]) ++ [["mount"; s; t]]) ++ acquire_cmds acq);
        [done|].
      by rewrite <- !(assoc_L (++)).
  - right. exists [], t, s, specs. cbn [acquire_cmds flat_map all_succeed app].
    rewrite app_nil_r. auto.
  - right. exists [], t, s, specs. cbn [acquire_cmds flat_map all_succeed app].
    rewrite app_nil_r. auto.
Qed.

Lemma unwind_ok_inv (targets : list string) r log :
  (unwind env targets (r, log)).1 = Ok tt →
  r = Ok tt ∧ all_succeed env log (map (λ target, ["umount"; target]) targets).
Proof.
  revert r log. induction targets as [|t targets IH]; intros r log; [done|].
  rewrite unwind_cons. unfold try_finally. cbn [fst snd].
  destruct (exited_zero_cases (env log ["umount"; t])) as [Hok|Hbad].
  - rewrite (run_ok _ _ _ Hok). intros [-> Hall]%IH. by repeat split.
  - destruct (run_fails _ _ _ Hbad) as [e ->]. intros Hr.
    destruct (unwind_raise env targets e (log ++ [["umount"; t]])) as [e' He'].
    congruence.
Qed.

(** X2: in every environment and around every body, the mount scope
    unmounts exactly the pairs it mounted, last mounted first, as the last
    thing it does.  Either every [mkdir] and [mount] succeeded and the body
    ran, or mounting stopped at the first pair whose [mkdir] or [mount]
    failed: then the pairs before it are the ones unmounted, the body did
    not run and the scope raises. *)
Theorem do_mount_balanced
    (mount_specs : list (string * string)) (body : M unit) (log : list command) :
  ∃ (acquired pending : list (string * string)) (before_release : list command),
    mount_specs = acquired ++ pending ∧
    all_succeed env log (acquire_cmds acquired) ∧
    (_do_mount env mount_specs body log).2 =
      before_release ++ map (λ target, ["umount"; target]) (reverse acquired.*1) ∧
    ((pending = [] ∧
      before_release = (body (log ++ acquire_cmds acquired)).2) ∨
     (∃ target source rest attempted e,
        pending = (target, source) :: rest ∧
        ((fails env (log ++ acquire_cmds acquired) ["mkdir"; "-p"; target] ∧
          attempted = [["mkdir"; "-p"; target]]) ∨
         (env (log ++ acquire_cmds acquired) ["mkdir"; "-p"; target] = Exited 0 ∧
          fails env ((log ++ acquire_cmds acquired) ++ [["mkdir"; "-p"; target]])
            ["mount"; source; target] ∧
          attempted = [["mkdir"; "-p"; target]; ["mount"; source; target]])) ∧
        before_release = (log ++ acquire_cmds acquired) ++ attempted ∧
        (_do_mount env mount_specs body log).1 = Raise e)).
Proof.
  destruct (acquire_cases mount_specs log)
    as [Hall|(acq & t & s & rest & -> & Hacq & Hf)].
  - exists mount_specs, [], (body (log ++ acquire_cmds mount_specs)).2.
    rewrite app_nil_r, (do_mount_outcome _ _ _ _ Hall), release_cmds_targets.
    repeat split; [done..|]. by left.
  - destruct (do_mount_head_fails t s rest body _ Hf) as (e0 & att & Hatt & Hrun).
    exists acq, ((t, s) :: rest), ((log ++ acquire_cmds acq) ++ att).
    rewrite do_mount_app, (do_mount_outcome _ _ _ _ Hacq), Hrun. cbn [fst snd].
    destruct (unwind_raise env (reverse acq.*1) e0 ((log ++ acquire_cmds acq) ++ att))
      as [e He].
    rewrite He, release_cmds_targets.
    split; [done|]. split; [done|]. split; [done|].
    right. exists t, s, rest, att, e. auto.
Qed.

(** X3: the mount scope returns normally exactly when every [mkdir] and
    [mount] succeeded, the body returned normally and every [umount]
    succeeded; no failure is swallowed. *)
Theorem do_mount_returns_iff
    (mount_specs : list (string * string)) (body : M unit) (log : list command) :
  (_do_mount env mount_specs body log).1 = Ok tt ↔
  all_succeed env log (acquire_cmds mount_specs) ∧
  (body (log ++ acquire_cmds mount_specs)).1 = Ok tt ∧
  all_succeed env (body (log ++ acquire_cmds mount_specs)).2
    (release_cmds mount_specs).
Proof.
  split.
  - intros Hok.
    destruct (acquire_cases mount_specs log)
      as [Hall|(acq & t & s & rest & -> & Hacq & Hf)].
    + split; [done|]. rewrite (do_mount_outcome _ _ _ _ Hall) in Hok.
      cbn [fst] in Hok. rewrite release_cmds_targets.
      destruct (body (log ++ acquire_cmds mount_specs)) as [r l].
      by apply unwind_ok_inv.
    + destruct (do_mount_head_fails t s rest body _ Hf) as (e0 & att & _ & Hrun).
      rewrite do_mount_app, (do_mount_outcome _ _ _ _ Hacq), Hrun in Hok.
      cbn [fst] in Hok.
      destruct (unwind_raise env (reverse acq.*1) e0 ((log ++ acquire_cmds acq) ++ att))
        as [e He].
      congruence.
  - intros (Hall & Hbody & Hrel). rewrite (do_mount_outcome _ _ _ _ Hall).
    cbn [fst]. rewrite release_cmds_targets in Hrel.
    destruct (body (log ++ acquire_cmds mount_specs)) as [r l]. cbn [fst snd] in *.
    by rewrite (unwind_ok _ _ _ _ Hrel).
Qed.

Lemma compare_proper_prefix (a c : string) :
  c ≠ "" → String.compare a (a +:+ c) = Lt.
Proof.
  intros Hc. induction a as [|x a IH]; simpl.
  - by destruct c.
  - unfold Ascii.compare. by rewrite N.compare_refl.
Qed.

Lemma strongly_sorted_lookup {A} (R : relation A) (l : list A) (i j : nat) (x y : A) :
  StronglySorted R l → (i < j)%nat → l !! i = Some x → l !! j = Some y → R x y.
Proof.
  intros Hs. revert i j. induction Hs as [|z l Hs IH Hz]; intros i j Hij Hi Hj.
  - by rewrite lookup_nil in Hi.
  - destruct j as [|j]; [lia|]. destruct i as [|i]; simpl in *.
    + simplify_eq. rewrite Forall_forall in Hz. apply Hz.
      by apply list_elem_of_lookup_2 in Hj.
    + apply (IH i j); [lia|done..].
Qed.

Lemma acquire_cmds_lookup (mount_specs : list (string * string)) (i : nat)
    (target source : string) :
  mount_specs !! i = Some (target, source) →
  acquire_cmds mount_specs !! (2 * i)%nat = Some ["mkdir"; "-p"; target] ∧
  acquire_cmds mount_specs !! (2 * i + 1)%nat = Some ["mount"; source; target].
Proof.
  revert i. induction mount_specs as [|[t s] specs IH]; intros i Hi.
  - by rewrite lookup_nil in Hi.
  - destruct i as [|i]; simpl in Hi.
    + by simplify_eq.
    + destruct (IH _ Hi) as [H1 H2].
      replace (2 * S i)%nat with (S (S (2 * i))) by lia.
      replace (S (S (2 * i)) + 1)%nat with (S (S (2 * i + 1))) by lia.
      done.
Qed.

(** X5: the order in which the disks are listed in the table has no
    influence on what the mount scope does. *)
Theorem mount_filesystems_disk_order
    (partitions partitions' : partition_table) (root : string) (body : M unit)
    (log : list command) :
  partitions ≡ₚ partitions' →
  _mount_filesystems env partitions root body log =
  _mount_filesystems env partitions' root body log.
Proof.
  intros Hperm. unfold _mount_filesystems.
  replace (Py.sorted (mount_pairs partitions' (Py.rstrip "/" root)))
    with (Py.sorted (mount_pairs partitions (Py.rstrip "/" root))); [done|].
  apply PyFacts.sorted_unique; [apply PyFacts.sorted_ascending|].
  rewrite PyFacts.sorted_permutation. unfold mount_pairs.
  by apply Permutation_flat_map.
Qed.

End Scope.

Lemma mount_filesystems_disk_order_witness :
  _mount_filesystems ok_env two_disk_table "/mnt" (_run ok_env pacstrap) [] =
  _mount_filesystems ok_env (reverse two_disk_table) "/mnt" (_run ok_env pacstrap) [].
Proof.
  apply (mount_filesystems_disk_order ok_env two_disk_table (reverse two_disk_table)).
  apply perm_swap.
Defined.

(** ** The resolver, its callers and the table *)

Section ResolverMore.

Implicit Types (es : list (string * nat * Partition)).
Implicit Types (m : gmap string MountSpec).

Lemma step_ok_inv e m m1 :
  step e m = Ok m1 →
  m !! normalized e = None ∧ m1 = <[normalized e := spec_of e]> m.
Proof.
  unfold step, record_mount_point. fold (normalized e).
  case_bool_decide as Hin; [done|]. intros [= <-]. split; [|done].
  destruct (m !! normalized e) eqn:E; [|done]. destruct Hin. by eexists.
Qed.

(** The loops run to the end only on entries with pairwise different
    mount points, none recorded before. *)
Lemma fold_step_ok_inv es m m' :
  fold_result es step m = Ok m' →
  NoDup (normalized <$> es) ∧ ∀ e, e ∈ es → m !! normalized e = None.
Proof.
  revert m. induction es as [|e es IH]; intros m Hfold.
  - split; [constructor|]. intros e He. by apply elem_of_nil in He.
  - cbn [fold_result] in Hfold. destruct (step e m) as [m1|] eqn:Hstep; [|done].
    cbn [mbind result_bind] in Hfold.
    apply step_ok_inv in Hstep as [Hnone ->].
    destruct (IH _ Hfold) as [Hnd Hfresh]. split.
    + rewrite fmap_cons. apply NoDup_cons. split; [|done].
      intros (e' & Hk & He')%list_elem_of_fmap.
      specialize (Hfresh _ He'). rewrite <- Hk, lookup_insert_eq in Hfresh. done.
    + intros e' [->|He']%elem_of_cons; [done|].
      specialize (Hfresh _ He').
      destruct (decide (normalized e = normalized e')) as [Heq|Hne].
      * rewrite Heq, lookup_insert_eq in Hfresh. done.
      * by rewrite lookup_insert_ne in Hfresh.
Qed.

(** What a successful run of the loops has recorded. *)
Lemma fold_step_lookup es m' :
  fold_result es step ∅ = Ok m' →
  NoDup (normalized <$> es) ∧
  ∀ k spec, m' !! k = Some spec ↔
    ∃ e, e ∈ es ∧ normalized e = k ∧ spec = spec_of e.
Proof.
  intros Hfold. destruct (fold_step_ok_inv _ _ _ Hfold) as [Hnd Hfresh].
  split; [done|].
  destruct (fold_step_fresh es ∅ Hnd Hfresh) as (m'' & Hm'' & Hlook).
  rewrite Hfold in Hm''. simplify_eq. intros k spec. rewrite Hlook.
  split; [|auto]. by intros [?|?].
Qed.

Lemma get_mount_specs_ok_inv (partitions : partition_table) (mount_specs : MountSpecs) :
  _get_mount_specs partitions = Ok mount_specs →
  ∃ m, fold_result (table_entries partitions) step ∅ = Ok m ∧
    m !! "" = Some (root mount_specs) ∧
    boot mount_specs = m !! "/boot" ∧
    home mount_specs = m !! "/home".
Proof.
  rewrite get_mount_specs_entries.
  destruct (fold_result (table_entries partitions) step ∅) as [m|e]; [|done].
  cbn [mbind result_bind]. destruct (m !! "") as [r|] eqn:Hr; [|done].
  intros [= <-]. by exists m.
Qed.

Lemma mount_pairs_entries (partitions : partition_table) (root : string) :
  mount_pairs partitions root =
  map (λ e, (root +:+ normalized e, e.1.1 +:+ Py.str_nat e.1.2))
      (table_entries partitions).
Proof.
  unfold mount_pairs, table_entries.
  induction partitions as [|[d items] ps IH]; [done|].
  cbn [flat_map]. rewrite map_app, IH, map_map. f_equal.
  apply map_ext. by intros [??].
Qed.

Lemma mount_in_acquire_cmds (mount_specs : list (string * string))
    (target source : string) :
  (target, source) ∈ mount_specs →
  ["mount"; source; target] ∈ acquire_cmds mount_specs.
Proof.
  intros Hin. unfold acquire_cmds. apply list_elem_of_In, in_flat_map.
  exists (target, source). split; [by apply list_elem_of_In|]. simpl. auto.
Qed.

(** X6: a table without repeated mount points and without a partition
    for the root makes the resolver raise [KeyError] for the empty key. *)
Theorem get_mount_specs_missing_root (partitions : partition_table) :
  NoDup (normalized <$> table_entries partitions) →
  "" ∉ normalized <$> table_entries partitions →
  _get_mount_specs partitions = Raise (KeyError "").
Proof.
  intros Hnd Hroot. rewrite get_mount_specs_entries.
  destruct (fold_step_fresh (table_entries partitions) ∅ Hnd) as (m & -> & Hlook);
    [by intros|].
  cbn [mbind result_bind]. destruct (m !! "") as [r|] eqn:Hr; [|done].
  destruct Hroot. apply Hlook in Hr as [Hr|(e & He & Hk & _)]; [done|].
  rewrite <- Hk. by apply list_elem_of_fmap_2.
Qed.

(** X7: whenever the resolver returns, the table has no repeated mount
    point, and the root, boot and home of the result are partitions of
    the table that mount at the root, at [/boot] and at [/home], with
    their disk and their position on it. *)
Theorem get_mount_specs_sound (partitions : partition_table) (mount_specs : MountSpecs) :
  _get_mount_specs partitions = Ok mount_specs →
  NoDup (normalized <$> table_entries partitions) ∧
  resolves_to partitions "" (root mount_specs) ∧
  (∀ spec, boot mount_specs = Some spec → resolves_to partitions "/boot" spec) ∧
  (∀ spec, home mount_specs = Some spec → resolves_to partitions "/home" spec).
Proof.
  intros (m & Hfold & Hr & Hb & Hh)%get_mount_specs_ok_inv.
  destruct (fold_step_lookup _ _ Hfold) as [Hnd Hlook].
  assert (∀ k spec, m !! k = Some spec → resolves_to partitions k spec) as Hres.
  { intros k spec (e & He & <- & ->)%Hlook. by apply entry_resolves. }
  rewrite Hb, Hh. auto.
Qed.

(** X8: on a table without repeated mount points, the order in which the
    disks are listed has no influence on what the resolver returns. *)
Theorem get_mount_specs_disk_order (partitions partitions' : partition_table) :
  partitions ≡ₚ partitions' →
  NoDup (normalized <$> table_entries partitions) →
  _get_mount_specs partitions = _get_mount_specs partitions'.
Proof.
  intros Hperm Hnd.
  assert (table_entries partitions ≡ₚ table_entries partitions') as Hes.
  { unfold table_entries. by apply Permutation_flat_map. }
  assert (NoDup (normalized <$> table_entries partitions')) as Hnd'.
  { by rewrite <- Hes. }
  rewrite !get_mount_specs_entries.
  destruct (fold_step_fresh _ ∅ Hnd) as (m & -> & Hlook); [by intros|].
  destruct (fold_step_fresh _ ∅ Hnd') as (m' & -> & Hlook'); [by intros|].
  replace m' with m; [done|]. apply map_eq. intros k. apply option_eq.
  intros spec. rewrite Hlook, Hlook'. by setoid_rewrite Hes.
Qed.

(** X10: when the table has a single disk, a resolved table gives no
    fstab record, and [_write_fstab] issues no command and returns,
    whatever the environment. *)
Theorem write_fstab_single_disk
    (d : string) (partition_items : list Partition) (mount_specs : MountSpecs)
    (env : environment) (root_dir : string) (log : list command) :
  _get_mount_specs [(d, partition_items)] = Ok mount_specs →
  fstab_lines mount_specs = [] ∧
  _write_fstab env mount_specs root_dir log = (Ok tt, log).
Proof.
  intros (m & Hfold & Hr & Hb & Hh)%get_mount_specs_ok_inv.
  destruct (fold_step_lookup _ _ Hfold) as [_ Hlook].
  assert (∀ k spec, m !! k = Some spec → disk spec = d) as Hdisk.
  { intros k spec (e & He & _ & ->)%Hlook. destruct e as [[d' i] p].
    apply elem_of_table_entries in He as (items & Hin & _).
    apply list_elem_of_singleton in Hin. by simplify_eq. }
  assert (fstab_lines mount_specs = []) as Hlines.
  { unfold fstab_lines. cbn [foldl]. rewrite Hb, Hh, (Hdisk _ _ Hr).
    destruct (m !! "/boot") as [b|] eqn:Eb, (m !! "/home") as [h|] eqn:Eh;
      rewrite ?(Hdisk _ _ Eb), ?(Hdisk _ _ Eh);
      repeat case_bool_decide; done. }
  split; [done|]. unfold _write_fstab. by rewrite Hlines.
Qed.

End ResolverMore.

Lemma get_mount_specs_missing_root_witness :
  _get_mount_specs rootless_table = Raise (KeyError "").
Proof. apply get_mount_specs_missing_root; by_decision. Defined.

Lemma get_mount_specs_sound_witness :
  ∃ mount_specs,
    _get_mount_specs two_disk_table = Ok mount_specs ∧
    resolves_to two_disk_table "" (root mount_specs).
Proof.
  eexists. split; [reflexivity|].
  eapply (get_mount_specs_sound two_disk_table). reflexivity.
Defined.

Lemma get_mount_specs_disk_order_witness :
  _get_mount_specs two_disk_table = _get_mount_specs (reverse two_disk_table).
Proof.
  apply (get_mount_specs_disk_order two_disk_table (reverse two_disk_table)).
  - apply perm_swap.
  - by_decision.
Defined.

Lemma write_fstab_single_disk_witness :
  ∃ mount_specs,
    _get_mount_specs sample_table = Ok mount_specs ∧
    _write_fstab ok_env mount_specs "/mnt" [] = (Ok tt, []).
Proof.
  destruct (_get_mount_specs sample_table) as [mount_specs|] eqn:Hget;
    [|by vm_compute in Hget].
  exists mount_specs. split; [done|].
  by destruct (write_fstab_single_disk "/dev/sda" _ mount_specs ok_env "/mnt" [] Hget).
Defined.

(** ** The whole installation *)

Section InstallationFacts.

Variable env : environment.
Variable default_network_interface : result string.

Lemma extends_ret {A} (a : A) : extends_log (mret a : M A).
Proof. intros log. exists []. by rewrite app_nil_r. Qed.

Lemma extends_call {A} (r : result A) : extends_log (call r).
Proof. intros log. exists []. by rewrite app_nil_r. Qed.

Lemma extends_run (c : command) : extends_log (_run env c).
Proof. intros log. exists [c]. apply run_log. Qed.

Lemma extends_bind {A B} (m : M A) (k : A → M B) :
  extends_log m → (∀ a, extends_log (k a)) → extends_log (m ≫= k).
Proof.
  intros Hm Hk log. unfold mbind, M_bind. destruct (Hm log) as [i1 H1].
  destruct (m log) as [[a|e] l]; simpl in H1; subst l.
  - destruct (Hk a (log ++ i1)) as [i2 H2]. exists (i1 ++ i2).
    by rewrite H2, (assoc_L (++)).
  - by exists i1.
Qed.

Lemma extends_for_each {A} (l : list A) (f : A → M unit) :
  (∀ x, extends_log (f x)) → extends_log (for_each l f).
Proof.
  intros Hf. induction l as [|x l IH]; simpl.
  - apply extends_ret.
  - by apply extends_bind.
Qed.

Lemma extends_try_finally (m f : M unit) :
  extends_log m → extends_log f → extends_log (try_finally m f).
Proof.
  intros Hm Hf log. unfold try_finally. destruct (Hm log) as [i1 H1].
  destruct (m log) as [r l]; simpl in H1; subst l.
  destruct (Hf (log ++ i1)) as [i2 H2]. exists (i1 ++ i2).
  destruct (f (log ++ i1)) as [[[]|e] l]; simpl in *; subst l;
    by rewrite (assoc_L (++)).
Qed.

Lemma extends_do_mount (mount_specs : list (string * string)) (body : M unit) :
  extends_log body → extends_log (_do_mount env mount_specs body).
Proof.
  intros Hbody. induction mount_specs as [|[t s] specs IH]; [done|]. simpl.
  apply extends_bind; [apply extends_run|intros _].
  apply extends_bind; [apply extends_run|intros _].
  apply extends_try_finally; [done|apply extends_run].
Qed.

(** Breaks a computation of the installer into its commands and calls. *)
Ltac extends_log_steps :=
  repeat first
    [ apply extends_run
    | apply extends_ret
    | apply extends_call
    | apply extends_for_each; intros ?
    | apply extends_bind; [|intros ?]
    | match goal with
      | |- extends_log (match ?x with _ => _ end) => destruct x
      end ].

Lemma extends_configure_system (configuration : Configuration) (root : string) :
  extends_log (_configure_system env default_network_interface configuration root).
Proof.
  unfold _configure_system, _configure_network, _link_service, _write_fstab,
    _write_line_to_file, _append_line_to_file.
  cbv zeta. extends_log_steps.
Qed.

Lemma write_line_to_file_cmd (content file : string) :
  _write_line_to_file env content file = _run env (write_line_cmd content file).
Proof. done. Qed.

Lemma configure_mirrors_cmd (mirrors : list string) :
  _configure_mirrors env mirrors = _run env (mirrors_cmd mirrors).
Proof. done. Qed.

(** [main] once the disks are partitioned, the file systems mounted, the
    mirrors written and the packages installed. *)
Lemma main_outcome (configuration : Configuration) log :
  let mount_specs := Py.sorted (mount_pairs (partitions configuration) "/mnt") in
  let log_installed :=
    log ++ partition_cmds (partitions configuration) ++ acquire_cmds mount_specs ++
    [mirrors_cmd (mirrors configuration); pacstrap_cmd configuration] in
  let configured :=
    _configure_system env default_network_interface configuration "/mnt"
      log_installed in
  all_succeed env log
    (partition_cmds (partitions configuration) ++ acquire_cmds mount_specs ++
     [mirrors_cmd (mirrors configuration); pacstrap_cmd configuration]) →
  main env default_network_interface configuration log =
  ((unwind env (reverse mount_specs.*1) configured).1,
   configured.2 ++ release_cmds mount_specs).
Proof.
  intros mount_specs log_installed configured Hall.
  apply all_succeed_app in Hall as [Hpart Hall].
  apply all_succeed_app in Hall as [Hacq (Hmirrors & Hpacstrap & _)].
  unfold main. unfold mbind at 1, M_bind at 1.
  rewrite (partition_ok _ _ _ Hpart). unfold _mount_filesystems.
  change (Py.rstrip "/" "/mnt") with "/mnt". fold mount_specs.
  rewrite (do_mount_outcome _ _ _ _ Hacq).
  unfold mbind, M_bind. rewrite configure_mirrors_cmd.
  rewrite (run_ok _ _ _ Hmirrors). unfold _install_packages.
  fold (pacstrap_cmd configuration). rewrite (run_ok _ _ _ Hpacstrap).
  subst configured log_installed. by rewrite <- !(assoc_L (++)).
Qed.

Lemma configure_system_resolver_error (configuration : Configuration)
    (root : string) (e : exception) log :
  _get_mount_specs (partitions configuration) = Raise e →
  _configure_system env default_network_interface configuration root log =
  (Raise e, log).
Proof. intros Hget. unfold _configure_system, mbind, M_bind, call. by rewrite Hget. Qed.

(** X11: when a command of the partitioner fails, [main] stops there: no
    directory is made, nothing is mounted or unmounted, and what [_run]
    raised for the command is raised. *)
Theorem main_stops_when_partitioning_fails
    (configuration : Configuration) (done rest : list command) (c : command)
    (log : list command) :
  partition_cmds (partitions configuration) = done ++ c :: rest →
  all_succeed env log done →
  fails env (log ++ done) c →
  ∃ e : exception,
    _run env c (log ++ done) = (Raise e, log ++ done ++ [c]) ∧
    main env default_network_interface configuration log =
      (Raise e, log ++ done ++ [c]).
Proof.
  intros Hcmds Hdone Hfail.
  destruct (run_all_failure env done rest c log Hdone Hfail) as (e & He & Hrun).
  exists e. split; [done|]. unfold main. unfold mbind at 1, M_bind at 1.
  by rewrite partition_script, Hcmds, Hrun.
Qed.

(** X12: once the disks are partitioned and the file systems mounted,
    [main] ends by unmounting every one of them, deepest target first,
    whatever happens in between: a failing or interrupted command, a table
    the resolver rejects, no network interface. *)
Theorem main_unmounts_everything
    (configuration : Configuration) (log : list command) :
  let mount_specs := Py.sorted (mount_pairs (partitions configuration) "/mnt") in
  all_succeed env log
    (partition_cmds (partitions configuration) ++ acquire_cmds mount_specs) →
  ∃ inside : list command,
    (main env default_network_interface configuration log).2 =
    log ++ partition_cmds (partitions configuration) ++ acquire_cmds mount_specs ++
    inside ++ map (λ target, ["umount"; target]) (reverse mount_specs.*1).
Proof.
  intros mount_specs [Hpart Hacq]%all_succeed_app.
  unfold main. unfold mbind at 1, M_bind at 1.
  rewrite (partition_ok _ _ _ Hpart). unfold _mount_filesystems.
  change (Py.rstrip "/" "/mnt") with "/mnt". fold mount_specs.
  rewrite (do_mount_outcome _ _ _ _ Hacq). cbn [snd].
  match goal with
  | |- context [?body ((log ++ _) ++ _)] =>
      assert (extends_log body) as Hext
  end.
  { apply extends_bind; [apply extends_run|intros _].
    apply extends_bind; [apply extends_run|intros _].
    apply extends_configure_system. }
  destruct (Hext ((log ++ partition_cmds (partitions configuration)) ++
                  acquire_cmds mount_specs)) as [inside ->].
  exists inside. by rewrite release_cmds_targets, <- !(assoc_L (++)).
Qed.

(** X13: a table that the resolver rejects (a repeated mount point, no
    root) is found out only inside the mount scope: when the commands
    succeed, [main] has partitioned the disks, mounted the file systems,
    written the mirror list and installed the packages before it raises
    the error of the resolver, and it unmounts the file systems first. *)
Theorem main_rejects_table_late
    (configuration : Configuration) (e : exception) (log : list command) :
  let mount_specs := Py.sorted (mount_pairs (partitions configuration) "/mnt") in
  let issued :=
    partition_cmds (partitions configuration) ++ acquire_cmds mount_specs ++
    [mirrors_cmd (mirrors configuration); pacstrap_cmd configuration] ++
    release_cmds mount_specs in
  _get_mount_specs (partitions configuration) = Raise e →
  all_succeed env log issued →
  main env default_network_interface configuration log = (Raise e, log ++ issued).
Proof.
  intros mount_specs issued Hget Hall. unfold issued in *.
  apply all_succeed_app in Hall as [Hpart Hall].
  apply all_succeed_app in Hall as [Hacq Hall].
  apply all_succeed_app in Hall as [Hinst Hrel].
  assert (all_succeed env log
            (partition_cmds (partitions configuration) ++ acquire_cmds mount_specs ++
             [mirrors_cmd (mirrors configuration); pacstrap_cmd configuration]))
    as Hinstalled.
  { apply all_succeed_app. split; [done|]. by apply all_succeed_app. }
  rewrite (main_outcome _ _ Hinstalled).
  rewrite (configure_system_resolver_error _ _ e) by done.
  cbn [fst snd]. rewrite release_cmds_targets in Hrel.
  rewrite <- !(assoc_L (++)) in Hrel.
  rewrite (unwind_ok _ _ _ _ Hrel). by rewrite <- !(assoc_L (++)).
Qed.

(** X14: [main] is the partitioner, the mounting of the file systems, the
    mirror list, the installation of the packages, [_configure_system] and
    the unmounting, in this order: when the commands outside
    [_configure_system] succeed, [main] ends as [_configure_system] does,
    after the [umount]s. *)
Theorem main_composition
    (configuration : Configuration) (r : result unit)
    (log log_configured : list command) :
  let mount_specs := Py.sorted (mount_pairs (partitions configuration) "/mnt") in
  let installed :=
    partition_cmds (partitions configuration) ++ acquire_cmds mount_specs ++
    [mirrors_cmd (mirrors configuration); pacstrap_cmd configuration] in
  all_succeed env log installed →
  _configure_system env default_network_interface configuration "/mnt"
    (log ++ installed) = (r, log_configured) →
  all_succeed env log_configured (release_cmds mount_specs) →
  main env default_network_interface configuration log =
  (r, log_configured ++ release_cmds mount_specs).
Proof.
  intros mount_specs installed Hall Hsys Hrel.
  rewrite (main_outcome _ _ Hall). fold mount_specs installed. rewrite Hsys.
  cbn [fst snd]. rewrite release_cmds_targets in Hrel.
  by rewrite (unwind_ok _ _ _ _ Hrel).
Qed.

End InstallationFacts.

(** X15: when no network interface is found, [_configure_system] has
    already written the fstab records, the time zone, the locale and the
    host name; it raises the error of the lookup and sets up neither the
    network, the boot loader nor the user. *)
Theorem configure_system_without_interface
    (env : environment) (configuration : Configuration) (root_dir : string)
    (mount_specs : MountSpecs) (e : exception) (log : list command) :
  let issued :=
    map (emit_cmd root_dir) (fstab_records mount_specs) ++
    locale_and_host_cmds configuration root_dir in
  _get_mount_specs (partitions configuration) = Ok mount_specs →
  all_succeed env log issued →
  _configure_system env (Raise e) configuration root_dir log =
  (Raise e, log ++ issued).
Proof.
  intros issued Hget [Hfstab Hrest]%all_succeed_app.
  destruct Hrest as (H1 & H2 & H3 & H4 & H5 & _).
  unfold _configure_system. unfold mbind at 1, M_bind at 1, call at 1.
  rewrite Hget. unfold mbind at 1, M_bind at 1.
  rewrite (write_fstab_ok _ _ _ _ Hfstab).
  unfold mbind at 1, M_bind at 1. rewrite (run_ok _ _ _ H1).
  unfold mbind at 1, M_bind at 1. rewrite (run_ok _ _ _ H2).
  unfold mbind at 1, M_bind at 1. rewrite (run_ok _ _ _ H3).
  rewrite !write_line_to_file_cmd.
  unfold mbind at 1, M_bind at 1. rewrite (run_ok _ _ _ H4).
  unfold mbind at 1, M_bind at 1. rewrite (run_ok _ _ _ H5).
  unfold issued, locale_and_host_cmds. by rewrite <- !(assoc_L (++)).
Qed.


Lemma main_stops_when_partitioning_fails_witness :
  ∃ e : exception,
    main (env_failing ["mkfs.fat"; "-F32"; "/dev/sda1"]) (Ok "eth0")
      _get_configuration [] =
    (Raise e,
     [["sgdisk"; "-Z"; "/dev/sda"]; ["sgdisk"; "-n=1:0:+256M"; "/dev/sda"];
      ["sgdisk"; "-t=1:ef00"; "/dev/sda"]; ["mkfs.fat"; "-F32"; "/dev/sda1"]]).
Proof.
  destruct (main_stops_when_partitioning_fails
              (env_failing ["mkfs.fat"; "-F32"; "/dev/sda1"]) (Ok "eth0")
              _get_configuration
              [["sgdisk"; "-Z"; "/dev/sda"]; ["sgdisk"; "-n=1:0:+256M"; "/dev/sda"];
               ["sgdisk"; "-t=1:ef00"; "/dev/sda"]]
              [["sgdisk"; "-n=2:0:+10240M"; "/dev/sda"];
               ["sgdisk"; "-t=2:8304"; "/dev/sda"]; ["mkfs.ext4"; "/dev/sda2"];
               ["sgdisk"; "-n=3:0:0"; "/dev/sda"];
               ["sgdisk"; "-t=3:8302"; "/dev/sda"];
               ["mkfs.btrfs"; "-f"; "/dev/sda3"]]
              ["mkfs.fat"; "-F32"; "/dev/sda1"] [])
    as (e & _ & Hrun); [by_evaluation ..|].
  by exists e.
Defined.

Lemma main_unmounts_everything_witness :
  ∃ inside : list command,
    (main (env_failing (pacstrap_cmd _get_configuration)) (Ok "eth0")
       _get_configuration []).2 =
    [] ++ partition_cmds sample_table ++ acquire_cmds sample_specs ++ inside ++
    [["umount"; "/mnt/home"]; ["umount"; "/mnt/boot"]; ["umount"; "/mnt"]].
Proof.
  destruct (main_unmounts_everything
              (env_failing (pacstrap_cmd _get_configuration)) (Ok "eth0")
              _get_configuration [])
    as [inside Hlog]; [by_evaluation|].
  exists inside. exact Hlog.
Defined.

Lemma main_rejects_table_late_witness :
  main ok_env (Ok "eth0") duplicate_configuration [] =
  (Raise (ValueError "Mount point “/home” already exists."),
   [] ++
   partition_cmds duplicate_table ++
   acquire_cmds (Py.sorted (mount_pairs duplicate_table "/mnt")) ++
   [mirrors_cmd (mirrors duplicate_configuration);
    pacstrap_cmd duplicate_configuration] ++
   release_cmds (Py.sorted (mount_pairs duplicate_table "/mnt"))).
Proof.
  apply (main_rejects_table_late ok_env (Ok "eth0") duplicate_configuration).
  - reflexivity.
  - apply all_succeed_ok_env.
Defined.

Lemma main_composition_witness :
  (main ok_env (Ok "eth0") _get_configuration []).1 = Ok tt.
Proof.
  destruct (_configure_system ok_env (Ok "eth0") _get_configuration "/mnt"
              ([] ++ partition_cmds sample_table ++
               acquire_cmds (Py.sorted (mount_pairs sample_table "/mnt")) ++
               [mirrors_cmd (mirrors _get_configuration);
                pacstrap_cmd _get_configuration]))
    as [r log_configured] eqn:Hsys.
  rewrite (main_composition ok_env (Ok "eth0") _get_configuration r []
             log_configured (all_succeed_ok_env _ _) Hsys (all_succeed_ok_env _ _)).
  vm_compute in Hsys. by injection Hsys as <- _.
Defined.

Lemma configure_system_without_interface_witness :
  ∃ mount_specs,
    _get_mount_specs sample_table = Ok mount_specs ∧
    _configure_system ok_env (Raise (OtherException "RuntimeError"))
      _get_configuration "/mnt" [] =
    (Raise (OtherException "RuntimeError"),
     [] ++ map (emit_cmd "/mnt") (fstab_records mount_specs) ++
     locale_and_host_cmds _get_configuration "/mnt").
Proof.
  destruct (_get_mount_specs sample_table) as [mount_specs|] eqn:Hget;
    [|by vm_compute in Hget].
  exists mount_specs. split; [done|].
  apply (configure_system_without_interface ok_env _get_configuration "/mnt"
           mount_specs _ [] Hget).
  apply all_succeed_ok_env.
Defined.

(** ** Reporting the output of a failed command *)

Lemma str_app_assoc (a b c : string) : (a +:+ b) +:+ c = a +:+ b +:+ c.
Proof.
  induction a as [|x a IH]; [done|].
  change (String x ((a +:+ b) +:+ c) = String x (a +:+ b +:+ c)). by rewrite IH.
Qed.

Lemma str_app_nil_r (a : string) : a +:+ "" = a.
Proof.
  induction a as [|x a IH]; [done|].
  change (String x (a +:+ "") = String x a). by rewrite IH.
Qed.

Lemma endswith_char_app (ch : ascii) (a b : string) :
  b ≠ "" → Py.endswith_char ch (a +:+ b) = Py.endswith_char ch b.
Proof.
  intros Hb. induction a as [|x a IH]; [done|].
  change (Py.endswith_char ch (String x (a +:+ b)) = Py.endswith_char ch b).
  rewrite <- IH. cbn [Py.endswith_char].
  destruct (a +:+ b) eqn:E; [|done].
  destruct a, b; simplify_eq.
Qed.

(** X16: [_write_output] hands on everything queued before, then the
    output unchanged, then a slash and a newline if the output does not
    end in a newline; afterwards nothing is queued and what was handed on
    ends in a newline.  An empty output leaves the buffer as it was, and
    does not flush it. *)
Theorem write_output_ends_in_newline (buffer : buffer_state) (output : string) :
  output ≠ "" →
  let buffer' := _write_output buffer output in
  let tail :=
    if Py.endswith_char (ascii_of_nat 10) output then ""
    else "/" +:+ PyMore.newline in
  flushed buffer' = flushed buffer +:+ queued buffer +:+ output +:+ tail ∧
  queued buffer' = "" ∧
  Py.endswith_char (ascii_of_nat 10) (flushed buffer') = true ∧
  _write_output buffer "" = buffer.
Proof.
  intros Hout buffer' tail.
  assert (flushed buffer' = flushed buffer +:+ queued buffer +:+ output +:+ tail)
    as Hflushed.
  { unfold buffer', tail, _write_output. rewrite bool_decide_eq_true_2 by done.
    destruct (Py.endswith_char (ascii_of_nat 10) output); simpl.
    - by rewrite str_app_nil_r.
    - by rewrite str_app_assoc. }
  split; [done|]. split.
  { unfold buffer', _write_output. by rewrite bool_decide_eq_true_2. }
  split; [|done]. rewrite Hflushed, <- !str_app_assoc. unfold tail.
  destruct (Py.endswith_char (ascii_of_nat 10) output) eqn:Hnl.
  - rewrite str_app_nil_r, endswith_char_app; [done|].
    intros ->. by apply Hout.
  - by rewrite endswith_char_app.
Qed.

Lemma write_output_ends_in_newline_witness :
  _write_output {| flushed := "=> mount ... "; queued := "Failed (32)" |}
    "mount: unknown filesystem type" =
  {| flushed :=
       "=> mount ... Failed (32)mount: unknown filesystem type/" +:+ PyMore.newline;
     queued := "" |}.
Proof.
  destruct (write_output_ends_in_newline
              {| flushed := "=> mount ... "; queued := "Failed (32)" |}
              "mount: unknown filesystem type")
    as (Hflushed & Hqueued & _); [done|].
  destruct (_write_output _ _) as [f q]. simpl in *. by subst.
Defined.

(** ** Where the mount commands stand in the log of the mount scope *)

Section MountLog.

Variable env : environment.

(** With mounting successful and a body that only adds to the log, the
    log of the scope starts with the log before it and the [mkdir] and
    [mount] commands, in the order in which they were issued. *)
Lemma mount_filesystems_log_lookup
    (partitions : partition_table) (root : string) (body : M unit)
    (log : list command) (p : nat) (c : command) :
  let mount_specs := Py.sorted (mount_pairs partitions (Py.rstrip "/" root)) in
  all_succeed env log (acquire_cmds mount_specs) →
  extends_log body →
  acquire_cmds mount_specs !! p = Some c →
  (_mount_filesystems env partitions root body log).2 !! (length log + p)%nat = Some c.
Proof.
  intros mount_specs Hacq Hext Hp. unfold _mount_filesystems. fold mount_specs.
  rewrite (do_mount_outcome _ _ _ _ Hacq). cbn [snd].
  destruct (Hext (log ++ acquire_cmds mount_specs)) as [inside ->].
  rewrite <- !(assoc_L (++)), lookup_app_r by lia.
  replace (length log + p - length log)%nat with p by lia.
  by apply lookup_app_l_Some.
Qed.

Lemma mount_pairs_length (partitions : partition_table) (root : string) :
  length (Py.sorted (mount_pairs partitions root)) =
  length (table_entries partitions).
Proof.
  by rewrite PyFacts.sorted_permutation, mount_pairs_entries, length_map.
Qed.

(** X4: in a run of the mount scope in which mounting succeeds, a file
    system whose target path properly extends the target path of another
    one is mounted after it: the [mount] command of the parent stands in
    the log before the [mount] command of what is nested under it. *)
Theorem mount_filesystems_parent_first
    (partitions : partition_table) (root : string) (body : M unit)
    (log : list command) (parent child source_p source_c : string) :
  let pairs := mount_pairs partitions (Py.rstrip "/" root) in
  let run := _mount_filesystems env partitions root body log in
  (parent, source_p) ∈ pairs →
  (child, source_c) ∈ pairs →
  proper_prefix parent child →
  all_succeed env log (acquire_cmds (Py.sorted pairs)) →
  extends_log body →
  ∃ p c : nat,
    (p < c < 2 * length pairs)%nat ∧
    run.2 !! (length log + p)%nat = Some ["mount"; source_p; parent] ∧
    run.2 !! (length log + c)%nat = Some ["mount"; source_c; child].
Proof.
  intros pairs run Hp Hc (ext & Hext & ->) Hacq Hbody.
  rewrite <- (PyFacts.sorted_permutation pairs) in Hp, Hc.
  apply list_elem_of_lookup in Hp as [i Hi], Hc as [j Hj].
  assert (Py.str_lt parent (parent +:+ ext)) as Hlt.
  { unfold Py.str_lt, String.ltb. by rewrite compare_proper_prefix. }
  assert (¬ Py.tuple_le (parent +:+ ext, source_c) (parent, source_p)) as Hnle.
  { intros [Hgt|[Heq _]]; simpl in *.
    - eapply PyFacts.str_lt_irrefl, PyFacts.str_lt_trans; eauto.
    - rewrite Heq in Hlt. by eapply PyFacts.str_lt_irrefl. }
  assert (i < j)%nat as Hij.
  { destruct (Nat.lt_trichotomy i j) as [?|[->|Hji]]; [done| |].
    - rewrite Hi in Hj. simplify_eq. destruct Hnle. right. split; [done|].
      unfold Py.str_le, String.leb. by rewrite PyFacts.compare_refl.
    - destruct Hnle.
      eapply (strongly_sorted_lookup _ _ j i); eauto using PyFacts.sorted_ascending. }
  assert (j < length pairs)%nat as Hjlen.
  { apply lookup_lt_Some in Hj. by rewrite PyFacts.sorted_permutation in Hj. }
  exists (2 * i + 1)%nat, (2 * j + 1)%nat. split; [lia|].
  split; apply mount_filesystems_log_lookup; try done;
    by eapply acquire_cmds_lookup.
Qed.

(** X9: the resolver and the mount scope agree: in a run of the mount
    scope in which mounting succeeds, each role that the resolver returns
    for the same table is mounted from the device that the role names, at
    the installation root followed by the mount point of the role. *)
Theorem get_mount_specs_agrees_with_mounts
    (partitions : partition_table) (mount_specs : MountSpecs) (root_dir : string)
    (body : M unit) (log : list command) :
  let run := _mount_filesystems env partitions root_dir body log in
  let mounted_at key spec :=
    ∃ p : nat,
      (p < 2 * length (table_entries partitions))%nat ∧
      run.2 !! (length log + p)%nat =
        Some ["mount"; partition spec; Py.rstrip "/" root_dir +:+ key] in
  _get_mount_specs partitions = Ok mount_specs →
  all_succeed env log
    (acquire_cmds (Py.sorted (mount_pairs partitions (Py.rstrip "/" root_dir)))) →
  extends_log body →
  mounted_at "" (root mount_specs) ∧
  (∀ spec, boot mount_specs = Some spec → mounted_at "/boot" spec) ∧
  (∀ spec, home mount_specs = Some spec → mounted_at "/home" spec).
Proof.
  intros run mounted_at (m & Hfold & Hr & Hb & Hh)%get_mount_specs_ok_inv Hacq Hbody.
  destruct (fold_step_lookup _ _ Hfold) as [_ Hlook].
  assert (∀ k spec, m !! k = Some spec → mounted_at k spec) as Hm.
  { intros k spec (e & He & <- & ->)%Hlook.
    assert ((Py.rstrip "/" root_dir +:+ normalized e, partition (spec_of e)) ∈
            Py.sorted (mount_pairs partitions (Py.rstrip "/" root_dir))) as Hin.
    { rewrite PyFacts.sorted_permutation, mount_pairs_entries.
      apply list_elem_of_In, in_map_iff. exists e. split; [done|].
      by apply list_elem_of_In. }
    apply list_elem_of_lookup in Hin as [i Hi].
    exists (2 * i + 1)%nat. split.
    - apply lookup_lt_Some in Hi. rewrite mount_pairs_length in Hi. lia.
    - apply mount_filesystems_log_lookup; try done.
      by eapply acquire_cmds_lookup. }
  rewrite Hb, Hh. auto.
Qed.

End MountLog.

Lemma mount_filesystems_parent_first_witness :
  ∃ p c : nat,
    (p < c < 6)%nat ∧
    (_mount_filesystems ok_env sample_table "/mnt/" (_run ok_env pacstrap) []).2
      !! p = Some ["mount"; "/dev/sda2"; "/mnt"] ∧
    (_mount_filesystems ok_env sample_table "/mnt/" (_run ok_env pacstrap) []).2
      !! c = Some ["mount"; "/dev/sda1"; "/mnt/boot"].
Proof.
  destruct (mount_filesystems_parent_first ok_env sample_table "/mnt/"
              (_run ok_env pacstrap) [] "/mnt" "/mnt/boot" "/dev/sda2" "/dev/sda1")
    as (p & c & Hpc & Hp & Hc).
  - by_decision.
  - by_decision.
  - exists "/boot". by_evaluation.
  - apply all_succeed_ok_env.
  - apply extends_run.
  - by exists p, c.
Defined.

Lemma get_mount_specs_agrees_with_mounts_witness :
  ∃ p : nat,
    (p < 6)%nat ∧
    (_mount_filesystems ok_env two_disk_table "/mnt" (_run ok_env pacstrap) []).2
      !! p = Some ["mount"; "/dev/sda2"; "/mnt"].
Proof.
  destruct (_get_mount_specs two_disk_table) as [mount_specs|] eqn:Hget;
    [|by vm_compute in Hget].
  destruct (get_mount_specs_agrees_with_mounts ok_env two_disk_table mount_specs
              "/mnt" (_run ok_env pacstrap) [] Hget (all_succeed_ok_env _ _)
              (extends_run ok_env pacstrap))
    as [(p & Hp & Hroot) _].
  vm_compute in Hget. injection Hget as <-. by exists p.
Defined.
